(** * Remote action steps of the runner: reference parsing, cache paths,
      credential scoping and the stages of a step

    A shallow embedding of [pkg/runner/step_action_remote.go].  Go strings are
    byte strings and are modelled as [string] (a list of 8-bit characters);
    nil-able pointers are [option]s; the step object that the Go methods
    mutate is threaded explicitly as a record, and what a method does to the
    outside world is recorded as a list of events.  Code that the file calls
    but does not contain is a field of the class [Collaborators]. *)

From Stdlib Require Import Ascii String.
From stdpp Require Import base option list gmap strings.

Set Default Proof Using "Type".

(** ** The parts of Go's [strings] package that the file uses *)
Module strings.

(** [strings.HasPrefix(s, prefix)] *)
Fixpoint HasPrefix (s prefix : string) {struct prefix} : bool :=
  match prefix with
  | EmptyString => true
  | String p prefix' =>
      match s with
      | String a s' => if Ascii.eqb a p then HasPrefix s' prefix' else false
      | EmptyString => false
      end
  end.

(** [strings.TrimPrefix(s, prefix)] *)
Definition TrimPrefix (s prefix : string) : string :=
  if HasPrefix s prefix
  then String.substring (String.length prefix)
                        (String.length s - String.length prefix) s
  else s.

(** [strings.Contains(s, substr)] *)
Fixpoint Contains (s substr : string) : bool :=
  HasPrefix s substr ||
  match s with
  | String _ s' => Contains s' substr
  | EmptyString => false
  end.

(** [strings.Cut(s, sep)] for a one-byte separator: the text before and
    after the first [sep], if there is one. *)
Fixpoint Cut (s : string) (sep : ascii) : option (string * string) :=
  match s with
  | EmptyString => None
  | String a s' =>
      if Ascii.eqb a sep then Some (EmptyString, s')
      else match Cut s' sep with
           | Some (before, after) => Some (String a before, after)
           | None => None
           end
  end.

(** [strings.SplitN(s, sep, n)] for a one-byte separator and [n >= 0]: at
    most [n] pieces, the last one the unsplit remainder; [n = 0] gives the
    nil slice. *)
Fixpoint SplitN (s : string) (sep : ascii) (n : nat) : list string :=
  match n with
  | 0 => []
  | 1 => [s]
  | S n' =>
      match Cut s sep with
      | Some (before, after) => before :: SplitN after sep n'
      | None => [s]
      end
  end.

(** [strings.NewReplacer(o1, n, o2, n, ...).Replace(s)] where every old
    string is a single byte and every new string is the single byte
    [new]: Go builds a byte replacer, which maps each byte on its own. *)
Fixpoint ReplaceBytes (olds : list ascii) (new : ascii) (s : string) : string :=
  match s with
  | EmptyString => EmptyString
  | String a s' =>
      String (if bool_decide (a ∈ olds) then new else a)
             (ReplaceBytes olds new s')
  end.

End strings.

(** ** The fragment of Go's [regexp] that [parseAction] needs

  Go documents its matching as leftmost-first: among the matches that start
  earliest, the one a backtracking search finds first.  The matcher below is
  that backtracking search, in continuation-passing style.  Repetition is
  over a single character class, which is all the pattern of the source
  uses.  Classes work on bytes: the three bytes the pattern names ([/], [@]
  and the newline that [.] excludes) are ASCII, and no byte of a multi-byte
  UTF-8 sequence is ASCII. *)
Module regexp.

Inductive class :=
| Lit (a : ascii)              (* a literal byte *)
| NoneOf (l : list ascii)      (* [^...] *)
| Dot.                         (* . (anything but newline) *)

Inductive re :=
| Bol                          (* ^ *)
| Eol                          (* $ *)
| Chr (c : class)
| Star (c : class)             (* c* , greedy *)
| Plus (c : class)             (* c+ , greedy *)
| Opt (r : re)                 (* (r)? , greedy *)
| Cat (r1 r2 : re)
| Cap (n : nat) (r : re).      (* capture group number n *)

Definition newline : ascii := Ascii.ascii_of_nat 10.

Definition accepts (c : class) (a : ascii) : bool :=
  match c with
  | Lit b => Ascii.eqb a b
  | NoneOf l => negb (bool_decide (a ∈ l))
  | Dot => negb (Ascii.eqb a newline)
  end.

(** A continuation receives the offset reached, the unread input and the
    captures so far. *)
Definition cont := nat → string → list string → option (list string).

Fixpoint star (p : ascii → bool) (pos : nat) (s : string)
         (caps : list string) (k : cont) : option (list string) :=
  match s with
  | String a s' =>
      if p a then
        match star p (S pos) s' caps k with
        | Some res => Some res
        | None => k pos s caps
        end
      else k pos s caps
  | EmptyString => k pos s caps
  end.

Fixpoint run (r : re) (pos : nat) (s : string) (caps : list string)
         (k : cont) : option (list string) :=
  match r with
  | Bol => match pos with 0 => k pos s caps | S _ => None end
  | Eol => match s with EmptyString => k pos s caps | String _ _ => None end
  | Chr c =>
      match s with
      | String a s' => if accepts c a then k (S pos) s' caps else None
      | EmptyString => None
      end
  | Star c => star (accepts c) pos s caps k
  | Plus c =>
      match s with
      | String a s' =>
          if accepts c a then star (accepts c) (S pos) s' caps k else None
      | EmptyString => None
      end
  | Opt r' =>
      match run r' pos s caps k with
      | Some res => Some res
      | None => k pos s caps
      end
  | Cat r1 r2 => run r1 pos s caps (λ pos' s' caps', run r2 pos' s' caps' k)
  | Cap n r' =>
      run r' pos s caps
          (λ pos' s' caps',
             k pos' s' (<[n := String.substring 0 (pos' - pos) s]> caps'))
  end.

Fixpoint groups (r : re) : nat :=
  match r with
  | Opt r' => groups r'
  | Cat r1 r2 => groups r1 + groups r2
  | Cap _ r' => S (groups r')
  | _ => 0
  end.

(** The search for the leftmost match: offset [pos] first, then the later
    ones.  Group 0 is the whole match; a group that took no part in the
    match reads as the empty string. *)
Fixpoint search (r : re) (pos : nat) (s : string) : option (list string) :=
  match run (Cap 0 r) pos s (replicate (S (groups r)) EmptyString)
            (λ _ _ caps, Some caps) with
  | Some caps => Some caps
  | None =>
      match s with
      | String _ s' => search r (S pos) s'
      | EmptyString => None
      end
  end.

(** The method [FindStringSubmatch] of a compiled pattern: the nil slice
    when nothing matches. *)
Definition FindStringSubmatch (r : re) (s : string) : list string :=
  default [] (search r 0 s).

End regexp.

(** ** References to remote actions *)

Module remoteAction.

Record t := {
  URL : string;
  Org : string;
  Repo : string;
  Path : string;
  Ref : string;
}.

Definition set_URL (u : string) (ra : t) : t :=
  {| URL := u; Org := Org ra; Repo := Repo ra; Path := Path ra; Ref := Ref ra |}.

(** The method [CloneURL(u)]. *)
Definition CloneURL (ra : t) (u : string) : string :=
  let u :=
    if String.eqb (URL ra) ""
    then if negb (strings.HasPrefix u "http://") && negb (strings.HasPrefix u "https://")
         then "https://" +:+ u
         else u
    else URL ra in
  u +:+ "/" +:+ Org ra +:+ "/" +:+ Repo ra.

(** The method [IsCheckout()]. *)
Definition IsCheckout (ra : t) : bool :=
  if String.eqb (Org ra) "actions" && String.eqb (Repo ra) "checkout"
  then true else false.

End remoteAction.

Definition isJuegoInternalServerPrefix (action : string) : bool :=
  if strings.Contains action "internal-git.juegostudio.net/git" then true else false.

Definition hasAServicePrefix (action : string) : bool :=
  if isJuegoInternalServerPrefix action then true else false.

(** The pattern of [parseAction], group by group: start of text; group 1, one
    or more bytes other than [/] and [@]; a [/]; group 2, the same; optional
    group 3, a [/] followed by group 4, any number of bytes other than [@];
    optional group 5, an [@] followed by group 6, any number of bytes other
    than newline; end of text. *)
Definition actionPattern : regexp.re :=
  let seg := regexp.Plus (regexp.NoneOf ["/"; "@"]%char) in
  regexp.Cat regexp.Bol
 (regexp.Cat (regexp.Cap 1 seg)
 (regexp.Cat (regexp.Chr (regexp.Lit "/"))
 (regexp.Cat (regexp.Cap 2 seg)
 (regexp.Cat (regexp.Opt (regexp.Cap 3
                (regexp.Cat (regexp.Chr (regexp.Lit "/"))
                            (regexp.Cap 4 (regexp.Star (regexp.NoneOf ["@"%char]))))))
 (regexp.Cat (regexp.Opt (regexp.Cap 5
                (regexp.Cat (regexp.Chr (regexp.Lit "@"))
                            (regexp.Cap 6 (regexp.Star regexp.Dot)))))
             regexp.Eol))))).

(** Indexing a slice of strings that is known to be long enough. *)
Definition index (l : list string) (i : nat) : string := default "" (l !! i).

Definition parseAction (action : string) : option remoteAction.t :=
  let matches := regexp.FindStringSubmatch actionPattern action in
  if (length matches <? 7) || String.eqb (index matches 6) ""
  then None
  else Some {| remoteAction.Org := index matches 1;
               remoteAction.Repo := index matches 2;
               remoteAction.Path := index matches 4;
               remoteAction.Ref := index matches 6;
               remoteAction.URL := "" |}.

(** The body of the loop of [newRemoteAction] for one scheme: [None] when the
    scheme is not a prefix of the string (the loop goes on), [Some res] when
    the function returns [res] from inside the loop. *)
Definition newRemoteAction_scheme (action schema : string)
  : option (option remoteAction.t) :=
  if strings.HasPrefix action schema then
    Some
      (if hasAServicePrefix action then
         match strings.SplitN (strings.TrimPrefix action schema) "/" 3 with
         | [host; extra; rest] =>
             match parseAction rest with
             | None => None
             | Some ret =>
                 Some (remoteAction.set_URL (schema +:+ host +:+ "/" +:+ extra) ret)
             end
         | _ => None
         end
       else
         match strings.SplitN (strings.TrimPrefix action schema) "/" 2 with
         | [host; rest] =>
             match parseAction rest with
             | None => None
             | Some ret => Some (remoteAction.set_URL (schema +:+ host) ret)
             end
         | _ => None
         end)
  else None.

Fixpoint newRemoteAction_loop (action : string) (schemas : list string)
  : option remoteAction.t :=
  match schemas with
  | [] => parseAction action
  | schema :: schemas' =>
      match newRemoteAction_scheme action schema with
      | Some res => res
      | None => newRemoteAction_loop action schemas'
      end
  end.

Definition newRemoteAction (action : string) : option remoteAction.t :=
  newRemoteAction_loop action ["https://"; "http://"].

(** The nine bytes that [safeFilename] replaces: less-than, greater-than,
    colon, double quote, slash, backslash, bar, question mark and star. *)
Definition unsafeChars : list ascii :=
  ["<"; ">"; ":"; Ascii.ascii_of_nat 34; "/"; "\"; "|"; "?"; "*"]%char.

Definition safeFilename (s : string) : string :=
  strings.ReplaceBytes unsafeChars "-" s.

(** *** The pattern read directly

    What the pattern of [parseAction] accepts, written as a scanner: the
    organisation runs to the first [/] or [@], the repository to the next, an
    optional path to the first [@] after that, and the ref is the rest of the
    line.  [parseAction_scan_eq] proves that this is what [parseAction]
    computes. *)
Fixpoint span (p : ascii → bool) (s : string) : string * string :=
  match s with
  | String a s' =>
      if p a then let '(taken, rest) := span p s' in (String a taken, rest)
      else (EmptyString, s)
  | EmptyString => (EmptyString, EmptyString)
  end.

Definition isSegmentByte (a : ascii) : bool :=
  negb (Ascii.eqb a "/") && negb (Ascii.eqb a "@").

Definition isPathByte (a : ascii) : bool := negb (Ascii.eqb a "@").

Definition isRefByte (a : ascii) : bool := negb (Ascii.eqb a regexp.newline).

Fixpoint allBytes (p : ascii → bool) (s : string) : bool :=
  match s with
  | String a s' => p a && allBytes p s'
  | EmptyString => true
  end.

(** The rest of [s] after the byte [c], when [s] starts with it. *)
Definition expect (c : ascii) (s : string) : option string :=
  match s with
  | String a s' => if Ascii.eqb a c then Some s' else None
  | EmptyString => None
  end.

Definition scanAction (action : string) : option remoteAction.t :=
  let '(org, afterOrg) := span isSegmentByte action in
  match expect "/" afterOrg with
  | Some afterSlash =>
      let '(repo, afterRepo) := span isSegmentByte afterSlash in
      let '(path, afterPath) :=
        match expect "/" afterRepo with
        | Some p => span isPathByte p
        | None => (EmptyString, afterRepo)
        end in
      match expect "@" afterPath with
      | Some ref =>
          if String.eqb org "" || String.eqb repo "" || String.eqb ref ""
             || negb (allBytes isRefByte ref)
          then None
          else Some {| remoteAction.URL := ""; remoteAction.Org := org;
                       remoteAction.Repo := repo; remoteAction.Path := path;
                       remoteAction.Ref := ref |}
      | None => None
      end
  | None => None
  end.

(** Sub-patterns of [actionPattern] and the groups of a match, named for the
    proof that the scanner and the pattern agree. *)
Definition refTail : regexp.re :=
  regexp.Cat (regexp.Opt (regexp.Cap 5
                (regexp.Cat (regexp.Chr (regexp.Lit "@"))
                            (regexp.Cap 6 (regexp.Star regexp.Dot)))))
             regexp.Eol.

Definition pathTail : regexp.re :=
  regexp.Cat (regexp.Opt (regexp.Cap 3
                (regexp.Cat (regexp.Chr (regexp.Lit "/"))
                            (regexp.Cap 4 (regexp.Star (regexp.NoneOf ["@"%char]))))))
             refTail.

Definition afterOrgRe : regexp.re :=
  regexp.Cat (regexp.Chr (regexp.Lit "/"))
             (regexp.Cat (regexp.Cap 2 (regexp.Plus (regexp.NoneOf ["/"; "@"]%char)))
                         pathTail).

(** Groups 1 to 6 of a successful match, as the scanner finds them. *)
Definition scanGroups (action : string) : option (list string) :=
  let '(org, afterOrg) := span isSegmentByte action in
  match expect "/" afterOrg with
  | Some afterSlash =>
      let '(repo, afterRepo) := span isSegmentByte afterSlash in
      if String.eqb org "" || String.eqb repo "" then None else
      let '(slashPath, path, afterPath) :=
        match expect "/" afterRepo with
        | Some p => (String "/" (span isPathByte p).1,
                     (span isPathByte p).1, (span isPathByte p).2)
        | None => (EmptyString, EmptyString, afterRepo)
        end in
      match afterPath with
      | EmptyString => Some [org; repo; slashPath; path; EmptyString; EmptyString]
      | String _ _ =>
          match expect "@" afterPath with
          | Some ref =>
              if allBytes isRefByte ref
              then Some [org; repo; slashPath; path; afterPath; ref]
              else None
          | None => None
          end
      end
  | None => None
  end.

(** The text before the first [@] of a reference has too few segments when
    its [/]-separated pieces do not start with two non-empty ones, to be the
    organisation and the repository. *)
Definition tooFewSegments (front : string) : bool :=
  match strings.SplitN front "/" 3 with
  | org :: repo :: _ => String.eqb org "" || String.eqb repo ""
  | _ => true
  end.

(** The reading of the spec, for comparison: the text before and after the
    last [sep] of the string. *)
Fixpoint cutAtLast (s : string) (sep : ascii) : option (string * string) :=
  match s with
  | EmptyString => None
  | String a s' =>
      match cutAtLast s' sep with
      | Some (before, after) => Some (String a before, after)
      | None => if Ascii.eqb a sep then Some (EmptyString, s') else None
      end
  end.

(** The schemes that [newRemoteAction] recognises, in the order it tries
    them. *)
Definition schemas : list string := ["https://"; "http://"].

(** A continuation rejects a class when it fails on every input that starts
    with a byte of the class: a greedy repetition of the class followed by
    such a continuation can only stop where the class stops. *)
Definition rejects (p : ascii → bool) (k : regexp.cont) : Prop :=
  ∀ a s pos caps, p a = true → k pos (String a s) caps = None.

(** ** The workflow model (Go package [model]), as far as the step reads it *)
Module model.

Record Step := {
  Uses : string;
  If_Value : string;               (* [If.Value] *)
  With : gmap string string;
}.

Definition set_Uses (u : string) (st : Step) : Step :=
  {| Uses := u; If_Value := If_Value st; With := With st |}.

Record ActionRuns := {
  PreIf : string;
  PostIf : string;
}.

Record Action := {
  Name : string;
  Runs : ActionRuns;
}.

Record GithubContext := {
  Repository : string;
  Token : string;
  ActionRepository : string;
  ActionRef : string;
}.

Definition set_Token (tok : string) (ghc : GithubContext) : GithubContext :=
  {| Repository := Repository ghc; Token := tok;
     ActionRepository := ActionRepository ghc; ActionRef := ActionRef ghc |}.

Definition set_Action (repo ref : string) (ghc : GithubContext) : GithubContext :=
  {| Repository := Repository ghc; Token := Token ghc;
     ActionRepository := repo; ActionRef := ref |}.

End model.

(** ** The runner's configuration and run context *)
Module Config.

Record t := {
  Workdir : string;
  BindWorkdir : bool;
  UseGitIgnore : bool;
  NoSkipCheckout : bool;
  DefaultActionInstance : string;
  ReplaceGheActionWithGithubCom : list string;
  ReplaceGheActionTokenWithGithubCom : string;
}.

End Config.

Module RunContext.

Record t := {
  Name : string;
  Config : Config.t;
  Env : gmap string string;
  ExtraPath : list string;
  ActionPath : string;
}.

Definition refresh (env : gmap string string) (extraPath : list string) (rc : t) : t :=
  {| Name := Name rc; Config := Config rc; Env := env; ExtraPath := extraPath;
     ActionPath := ActionPath rc |}.

End RunContext.

(** ** The clone collaborator (Go package [git]) *)
Module git.

Record NewGitCloneExecutorInput := {
  URL : string;
  Ref : string;
  Dir : string;
  Token : string;
}.

(** Modelled from the spec: the typed failure of the clone collaborator,
    which is not part of the file.  The source tells the three apart with
    [errors.Is(err, git.ErrShortRef)] (and then reads the full commit id off
    the error), [errors.Is(err, gogit.ErrForceNeeded)], and otherwise. *)
Inductive Error :=
| ErrShortRef (commit : string)
| ErrForceNeeded (text : string)
| ErrOther (text : string).

End git.

(** Errors returned by the executors of the step. *)
Inductive error :=
| Errorf (message : string)        (* built with [fmt.Errorf] *)
| CloneError (e : git.Error)       (* the clone's own error, as it is *)
| ReadError (text : string)        (* from the action definition reader *)
| StageError (text : string).      (* from running or copying *)

(** Modelled from the spec: the nested steps of a composite action, a type
    that is not part of the file.  In the source they are closures; here
    they are told apart by the composite run context and the action they
    were built from. *)
Module compositeSteps.

Inductive t :=
| closures (builtIn : RunContext.t) (builtFrom : option model.Action).

End compositeSteps.

Inductive stepStage := stepStagePre | stepStageMain | stepStagePost.

Module stepActionRemote.

(** The fields [readAction] and [runAction] hold functions fixed when the
    step is created; they are collaborators below. *)
Record t := {
  Step : model.Step;
  RunContext : RunContext.t;
  compositeRunContext : option RunContext.t;
  compositeSteps : option compositeSteps.t;
  action : option model.Action;
  env : gmap string string;
  remoteAction : option remoteAction.t;
}.

Definition set_Step (st : model.Step) (sar : t) : t :=
  {| Step := st; RunContext := RunContext sar;
     compositeRunContext := compositeRunContext sar;
     compositeSteps := compositeSteps sar; action := action sar;
     env := env sar; remoteAction := remoteAction sar |}.


Definition set_remoteAction (ra : option remoteAction.t) (sar : t) : t :=
  {| Step := Step sar; RunContext := RunContext sar;
     compositeRunContext := compositeRunContext sar;
     compositeSteps := compositeSteps sar; action := action sar;
     env := env sar; remoteAction := ra |}.

Definition set_action (a : option model.Action) (sar : t) : t :=
  {| Step := Step sar; RunContext := RunContext sar;
     compositeRunContext := compositeRunContext sar;
     compositeSteps := compositeSteps sar; action := a;
     env := env sar; remoteAction := remoteAction sar |}.

Definition set_composite (crc : option RunContext.t) (steps : option compositeSteps.t)
    (sar : t) : t :=
  {| Step := Step sar; RunContext := RunContext sar;
     compositeRunContext := crc; compositeSteps := steps; action := action sar;
     env := env sar; remoteAction := remoteAction sar |}.

End stepActionRemote.

(** ** Effects *)

(** What an executor does to the outside world, in order: every call of the
    expression evaluator, of the logger, of the clone, of the reader and the
    runner of actions, of the container's copy, and of the functions that
    build and refresh the composite context.  Reading the configuration, the
    process environment, the github context or a path is not an event. *)
Inductive event :=
| EvInterpolate (text : string)
| EvDebugf (message : string)
| EvInfof (format : string) (e : git.Error)
| EvGitClone (input : git.NewGitCloneExecutorInput)
| EvReadAction (actionDir actionPath : string)
| EvCopyDir (destPath srcPath : string) (useGitIgnore : bool)
| EvRunAction (actionDir : string) (ra : remoteAction.t)
| EvNewCompositeRunContext (containerActionDir : string)
| EvCompositeExecutor
| EvEvaluateCompositeInputAndEnv.

(** How a Go call ends: it returns an error (nil or not), or it panics on a
    nil pointer. *)
Inductive status :=
| returned (err : option error)
| panicked.

Record Result := {
  final : stepActionRemote.t;
  trace : list event;
  outcome : status;
}.

(** A [common.Executor] closed over the step: run on the step's current
    state, it gives the new state, the events and the outcome. *)
Definition Executor := stepActionRemote.t → Result.

(** Modelled from the spec: [e.Then(next)] of package [common], which is not
    part of the file: [next] runs only when [e] returned nil (its handling of
    warnings and of a cancelled context is left out). *)
Definition Then (e next : Executor) : Executor := λ sar,
  let r := e sar in
  match outcome r with
  | returned None =>
      let r' := next (final r) in
      {| final := final r'; trace := trace r ++ trace r'; outcome := outcome r' |}
  | _ => r
  end.

(** Modelled from the spec: [common.NewPipelineExecutor], not part of the
    file: the executors in sequence, nil ones at the front dropped, and the
    executor that returns nil when there is none. *)
Fixpoint NewPipelineExecutor_from (rtn : option Executor)
    (executors : list (option Executor)) : option Executor :=
  match executors with
  | [] => rtn
  | executor :: rest =>
      NewPipelineExecutor_from
        (match rtn, executor with
         | None, _ => executor
         | Some r, Some next => Some (Then r next)
         | Some r, None =>
             Some (Then r (λ sar, {| final := sar; trace := []; outcome := panicked |}))
         end) rest
  end.

Definition NewPipelineExecutor (executors : list (option Executor)) : Executor :=
  match NewPipelineExecutor_from None executors with
  | Some e => e
  | None =>
      match executors with
      | [] => λ sar, {| final := sar; trace := []; outcome := returned None |}
      | _ => λ sar, {| final := sar; trace := []; outcome := panicked |}
      end
  end.

(** Modelled from the spec: [common.NewInfoExecutor], not part of the file:
    it logs at the informational level and returns nil. *)
Definition NewInfoExecutor (format : string) (e : git.Error) : Executor := λ sar,
  {| final := sar; trace := [EvInfof format e]; outcome := returned None |}.

(** ** Collaborators

    Code that the file calls and that lives elsewhere: the process
    environment, functions of the Go library whose tables are not modelled,
    methods of the run context and of the job container, and the function
    values the step is created with. *)
Class Collaborators := {
  (** the process environment read by [os.Getenv] *)
  environ : gmap string string;
  (** [strings.EqualFold] *)
  EqualFold : string → string → bool;
  (** [path.Join] of two elements *)
  path_Join : string → string → string;
  (** [string(filepath.Separator)] *)
  Separator : string;
  (** [rc.NewExpressionEvaluator(ctx).Interpolate(ctx, _)] *)
  Interpolate : RunContext.t → string → string;
  (** [rc.ActionCacheDir()] *)
  ActionCacheDir : RunContext.t → string;
  (** [rc.getGithubContext(ctx)] *)
  rc_getGithubContext : RunContext.t → model.GithubContext;
  (** [isLocalCheckout(ghc, step)]: the caller has already put the working
      tree in place *)
  isLocalCheckout : model.GithubContext → model.Step → bool;
  (** running the executor made by [stepActionRemoteNewCloneExecutor] *)
  gitClone : git.NewGitCloneExecutorInput → option git.Error;
  (** the step's [readAction], given the step, the cache directory and the
      path of the action inside it *)
  readAction : model.Step → string → string → option model.Action * option error;
  (** running the executor made by the step's [runAction] *)
  runAction : stepActionRemote.t → string → remoteAction.t → option error;
  (** [rc.JobContainer.ToContainerPath] *)
  ToContainerPath : string → string;
  (** running the executor made by [rc.JobContainer.CopyDir] *)
  CopyDir : string → string → bool → option error;
  (** [getContainerActionPaths(step, actionLocation, rc)] *)
  getContainerActionPaths : model.Step → string → RunContext.t → string * string;
  (** [newCompositeRunContext(ctx, parent, step, actionPath)] *)
  newCompositeRunContext : RunContext.t → stepActionRemote.t → string → RunContext.t;
  (** [rc.compositeExecutor(action)] *)
  compositeExecutor : RunContext.t → option model.Action → compositeSteps.t;
  (** [evaluateCompositeInputAndEnv(ctx, parent, step)] *)
  evaluateCompositeInputAndEnv : RunContext.t → stepActionRemote.t → gmap string string;
  (** [runStepExecutor(step, stage, executor)] *)
  runStepExecutor : stepStage → Executor → Executor;
}.

(** [os.Getenv]: the empty string for a variable that is not set. *)
Definition Getenv `{Collaborators} (key : string) : string :=
  default "" (environ !! key).

Section runner.
Context `{Collaborators}.

(** [(sar).getGithubContext(ctx)] *)
Definition getGithubContext (sar : stepActionRemote.t) : model.GithubContext :=
  let ghc := rc_getGithubContext (stepActionRemote.RunContext sar) in
  match stepActionRemote.remoteAction sar with
  | Some ra =>
      model.set_Action (remoteAction.Org ra +:+ "/" +:+ remoteAction.Repo ra)
                       (remoteAction.Ref ra) ghc
  | None => ghc
  end.

Definition isActionOnGiteaInstance (action : string) : bool :=
  let gitInstanceURL := Getenv "GITEA_INSTANCE_URL" in
  strings.HasPrefix action gitInstanceURL.

(** The condition under which a checkout action is not run but replaced. *)
Definition skipsCheckout (sar : stepActionRemote.t) (ra : remoteAction.t) : bool :=
  remoteAction.IsCheckout ra
  && isLocalCheckout (getGithubContext sar) (stepActionRemote.Step sar)
  && negb (Config.NoSkipCheckout (RunContext.Config (stepActionRemote.RunContext sar))).

(** One turn of the loop over [ReplaceGheActionWithGithubCom]. *)
Definition replaceGhe_step (cfg : Config.t)
    (st : remoteAction.t * model.GithubContext) (action : string)
  : remoteAction.t * model.GithubContext :=
  let '(ra, github) := st in
  if EqualFold (remoteAction.Org ra +:+ "/" +:+ remoteAction.Repo ra) action
  then (remoteAction.set_URL "https://github.com" ra,
        model.set_Token (Config.ReplaceGheActionTokenWithGithubCom cfg) github)
  else (ra, github).

Definition replaceGhe (cfg : Config.t) (ra : remoteAction.t)
    (github : model.GithubContext) : remoteAction.t * model.GithubContext :=
  foldl (replaceGhe_step cfg) (ra, github) (Config.ReplaceGheActionWithGithubCom cfg).

(** The token given to the clone, and the debug line that goes with it. *)
Definition cloneToken (cloneURL : string) : string * list event :=
  if isActionOnGiteaInstance cloneURL
  then (Getenv "GITEA_RUNNER_TOKEN", [EvDebugf "Adding GITEA_RUNNER_TOKEN as Token"])
  else ("", []).

Definition shortRefMessage (uses ref commit : string) : string :=
  "Unable to resolve action `" +:+ uses +:+ "`, the provided ref `" +:+ ref
  +:+ "` is the shortened version of a commit SHA, which is not supported. Please use the full commit SHA `"
  +:+ commit +:+ "` instead".

Definition formatMessage (uses : string) : string :=
  "Expected format {org}/{repo}[/path]@ref. Actual '" +:+ uses
  +:+ "' Input string was not in a correct format".

(** The second executor of the pipeline that ends [prepareActionExecutor]. *)
Definition loadAction (actionDir : string) : Executor := λ sar,
  match stepActionRemote.remoteAction sar with
  | None => {| final := sar; trace := []; outcome := panicked |}
  | Some ra =>
      let '(actionModel, err) :=
        readAction (stepActionRemote.Step sar) actionDir (remoteAction.Path ra) in
      {| final := stepActionRemote.set_action actionModel sar;
         trace := [EvReadAction actionDir (remoteAction.Path ra)];
         outcome := returned err |}
  end.

Definition prepareActionExecutor : Executor := λ sar,
  match stepActionRemote.remoteAction sar, stepActionRemote.action sar with
  | Some _, Some _ =>
      (* we are already good to run *)
      {| final := sar; trace := []; outcome := returned None |}
  | _, _ =>
      let rc := stepActionRemote.RunContext sar in
      let raw := model.Uses (stepActionRemote.Step sar) in
      let uses := Interpolate rc raw in
      let sar := stepActionRemote.set_Step (model.set_Uses uses (stepActionRemote.Step sar)) sar in
      let sar := stepActionRemote.set_remoteAction (newRemoteAction uses) sar in
      match stepActionRemote.remoteAction sar with
      | None =>
          {| final := sar; trace := [EvInterpolate raw];
             outcome := returned (Some (Errorf (formatMessage uses))) |}
      | Some ra =>
          let github := getGithubContext sar in
          if skipsCheckout sar ra then
            {| final := sar;
               trace := [EvInterpolate raw;
                         EvDebugf "Skipping local actions/checkout because workdir was already copied"];
               outcome := returned None |}
          else
            let '(ra, github) := replaceGhe (RunContext.Config rc) ra github in
            let sar := stepActionRemote.set_remoteAction (Some ra) sar in
            let cloneURL :=
              remoteAction.CloneURL ra (Config.DefaultActionInstance (RunContext.Config rc)) in
            let '(token, tokenLog) := cloneToken cloneURL in
            let actionDir :=
              ActionCacheDir rc +:+ "/" +:+ safeFilename (model.Uses (stepActionRemote.Step sar)) in
            let input :=
              {| git.URL := cloneURL; git.Ref := remoteAction.Ref ra;
                 git.Dir := actionDir; git.Token := token |} in
            let before := EvInterpolate raw :: tokenLog ++ [EvGitClone input] in
            let continue (ntErr : option Executor) :=
              let r := NewPipelineExecutor [ntErr; Some (loadAction actionDir)] sar in
              {| final := final r; trace := before ++ trace r; outcome := outcome r |} in
            match gitClone input with
            | Some (git.ErrShortRef commit) =>
                {| final := sar; trace := before;
                   outcome := returned (Some (Errorf
                     (shortRefMessage (model.Uses (stepActionRemote.Step sar))
                                      (remoteAction.Ref ra) commit))) |}
            | Some (git.ErrForceNeeded text) =>
                continue (Some (NewInfoExecutor
                  "Non-terminating error while running 'git clone': %v"
                  (git.ErrForceNeeded text)))
            | Some err =>
                {| final := sar; trace := before; outcome := returned (Some (CloneError err)) |}
            | None => continue None
            end
      end
  end.

(** The function that [main] hands to [runStepExecutor]. *)
Definition mainStep : Executor := λ sar,
  let rc := stepActionRemote.RunContext sar in
  let cfg := RunContext.Config rc in
  match stepActionRemote.remoteAction sar with
  | None => {| final := sar; trace := []; outcome := panicked |}
  | Some ra =>
      if skipsCheckout sar ra then
        if Config.BindWorkdir cfg then
          {| final := sar;
             trace := [EvDebugf "Skipping local actions/checkout because you bound your workspace"];
             outcome := returned None |}
        else
          (* indexing the map [With], nil or not, gives the empty string for
             a key that is not there *)
          let withPath := default "" (model.With (stepActionRemote.Step sar) !! "path") in
          let copyToPath :=
            path_Join (ToContainerPath (Config.Workdir cfg)) (Interpolate rc withPath) in
          let src := Config.Workdir cfg +:+ Separator +:+ "." in
          {| final := sar;
             trace := [EvInterpolate withPath;
                       EvCopyDir copyToPath src (Config.UseGitIgnore cfg)];
             outcome := returned (CopyDir copyToPath src (Config.UseGitIgnore cfg)) |}
      else
        let actionDir :=
          ActionCacheDir rc +:+ "/" +:+ safeFilename (model.Uses (stepActionRemote.Step sar)) in
        {| final := sar; trace := [EvRunAction actionDir ra];
           outcome := returned (runAction sar actionDir ra) |}
  end.

Definition main : Executor :=
  NewPipelineExecutor
    [Some prepareActionExecutor; Some (runStepExecutor stepStageMain mainStep)].

(** [getIfExpression]; [None] stands for the panic of a nil dereference. *)
Definition getIfExpression (sar : stepActionRemote.t) (stage : stepStage)
  : option string :=
  match stage with
  | stepStagePre =>
      match stepActionRemote.remoteAction sar with
      | None => None
      | Some ra =>
          if skipsCheckout sar ra then Some "false"
          else model.PreIf ∘ model.Runs <$> stepActionRemote.action sar
      end
  | stepStageMain => Some (model.If_Value (stepActionRemote.Step sar))
  | stepStagePost => model.PostIf ∘ model.Runs <$> stepActionRemote.action sar
  end.

(** [getCompositeRunContext]: the new state of the step, the events, and the
    context returned ([None] for the panic of a nil dereference). *)
Definition getCompositeRunContext (sar : stepActionRemote.t)
  : stepActionRemote.t * list event * option RunContext.t :=
  let rc := stepActionRemote.RunContext sar in
  match stepActionRemote.compositeRunContext sar with
  | None =>
      match stepActionRemote.remoteAction sar with
      | None => (sar, [], None)
      | Some ra =>
          let actionDir :=
            ActionCacheDir rc +:+ "/" +:+ safeFilename (model.Uses (stepActionRemote.Step sar)) in
          let actionLocation := path_Join actionDir (remoteAction.Path ra) in
          let containerActionDir :=
            (getContainerActionPaths (stepActionRemote.Step sar) actionLocation rc).2 in
          let crc := newCompositeRunContext rc sar containerActionDir in
          let steps := compositeExecutor crc (stepActionRemote.action sar) in
          (stepActionRemote.set_composite (Some crc) (Some steps) sar,
           [EvNewCompositeRunContext containerActionDir; EvCompositeExecutor],
           Some crc)
      end
  | Some crc =>
      let env := evaluateCompositeInputAndEnv rc sar in
      let crc := RunContext.refresh env (RunContext.ExtraPath rc) crc in
      (stepActionRemote.set_composite (Some crc) (stepActionRemote.compositeSteps sar) sar,
       [EvEvaluateCompositeInputAndEnv],
       Some crc)
  end.


End runner.

(** ** A concrete set of collaborators, to run the model on examples *)

Definition asciiLower (a : ascii) : ascii :=
  let n := Ascii.nat_of_ascii a in
  if (65 <=? n) && (n <=? 90) then Ascii.ascii_of_nat (n + 32) else a.

Fixpoint lower (s : string) : string :=
  match s with
  | String a s' => String (asciiLower a) (lower s')
  | EmptyString => EmptyString
  end.

Definition exampleAction : model.Action :=
  {| model.Name := "example";
     model.Runs := {| model.PreIf := "always()"; model.PostIf := "always()" |} |}.

(** Collaborators that interpolate nothing, fold case in ASCII only, keep the
    cache under [/cache], and answer the clone with [cloned]. *)
Definition exampleCollaborators (environment : gmap string string)
    (localCheckout : bool) (cloned : option git.Error) : Collaborators :=
  {| environ := environment;
     EqualFold := λ a b, String.eqb (lower a) (lower b);
     path_Join := λ a b, if String.eqb b "" then a else a +:+ "/" +:+ b;
     Separator := "/";
     Interpolate := λ _ s, s;
     ActionCacheDir := λ _, "/cache";
     rc_getGithubContext := λ _,
       {| model.Repository := "owner/project"; model.Token := "run-token";
          model.ActionRepository := ""; model.ActionRef := "" |};
     isLocalCheckout := λ _ _, localCheckout;
     gitClone := λ _, cloned;
     readAction := λ _ _ _, (Some exampleAction, None);
     runAction := λ _ _ _, None;
     ToContainerPath := λ p, p;
     CopyDir := λ _ _ _, None;
     getContainerActionPaths := λ _ location _, ("action", location);
     newCompositeRunContext := λ parent _ actionPath,
       {| RunContext.Name := RunContext.Name parent;
          RunContext.Config := RunContext.Config parent;
          RunContext.Env := RunContext.Env parent;
          RunContext.ExtraPath := RunContext.ExtraPath parent;
          RunContext.ActionPath := actionPath |};
     compositeExecutor := compositeSteps.closures;
     evaluateCompositeInputAndEnv := λ parent _, RunContext.Env parent;
     runStepExecutor := λ _ e, e |}.

Definition exampleConfig : Config.t :=
  {| Config.Workdir := "/work"; Config.BindWorkdir := false;
     Config.UseGitIgnore := true; Config.NoSkipCheckout := false;
     Config.DefaultActionInstance := "gitea.example.com";
     Config.ReplaceGheActionWithGithubCom := ["Octo/Tool"];
     Config.ReplaceGheActionTokenWithGithubCom := "github-com-token" |}.

Definition exampleRunContext : RunContext.t :=
  {| RunContext.Name := "job"; RunContext.Config := exampleConfig;
     RunContext.Env := ∅; RunContext.ExtraPath := []; RunContext.ActionPath := "" |}.

(** A step that has not been resolved yet. *)
Definition newStep (uses : string) : stepActionRemote.t :=
  {| stepActionRemote.Step :=
       {| model.Uses := uses; model.If_Value := ""; model.With := ∅ |};
     stepActionRemote.RunContext := exampleRunContext;
     stepActionRemote.compositeRunContext := None;
     stepActionRemote.compositeSteps := None;
     stepActionRemote.action := None;
     stepActionRemote.env := ∅;
     stepActionRemote.remoteAction := None |}.

Definition giteaEnvironment : gmap string string :=
  {[ "GITEA_INSTANCE_URL" := "https://gitea.example.com";
     "GITEA_RUNNER_TOKEN" := "runner-secret" ]}.

(** The reference [org/repo/sub] at [v1], on the default instance. *)
Definition exampleReference : remoteAction.t :=
  {| remoteAction.URL := ""; remoteAction.Org := "org"; remoteAction.Repo := "repo";
     remoteAction.Path := "sub"; remoteAction.Ref := "v1" |}.


Definition checkoutReference : remoteAction.t :=
  {| remoteAction.URL := ""; remoteAction.Org := "actions";
     remoteAction.Repo := "checkout"; remoteAction.Path := "";
     remoteAction.Ref := "v4" |}.

(** A step after a resolution that parsed [ra] and loaded [a]. *)
Definition resolvedStep (uses : string) (ra : remoteAction.t)
    (a : option model.Action) : stepActionRemote.t :=
  stepActionRemote.set_action a
    (stepActionRemote.set_remoteAction (Some ra) (newStep uses)).

(** The clone that the example collaborators are asked for on
    [org/repo/sub@v1]. *)
Definition exampleClone : git.NewGitCloneExecutorInput :=
  {| git.URL := "https://gitea.example.com/org/repo"; git.Ref := "v1";
     git.Dir := "/cache/org-repo-sub@v1"; git.Token := "runner-secret" |}.

(** ** The pre and post stages, and the small accessors *)

(** Modelled from the spec: [e.If(conditional)] of package [common], which is
    not part of the file: [e] runs when the condition holds of the step as it
    then is, and nil is returned otherwise. *)
Definition If (e : Executor) (conditional : stepActionRemote.t → bool) : Executor :=
  λ sar,
    if conditional sar then e sar
    else {| final := sar; trace := []; outcome := returned None |}.

(** The stage functions and conditions that [pre] and [post] are built from;
    they live in other files of the package. *)
Class StageCollaborators := {
  (** running [runPreStep(step)] *)
  runPreStep : Executor;
  (** [hasPreStep(step)] *)
  hasPreStep : stepActionRemote.t → bool;
  (** [shouldRunPreStep(step)] *)
  shouldRunPreStep : stepActionRemote.t → bool;
  (** running [runPostStep(step)] *)
  runPostStep : Executor;
  (** [hasPostStep(step)] *)
  hasPostStep : stepActionRemote.t → bool;
  (** [shouldRunPostStep(step)] *)
  shouldRunPostStep : stepActionRemote.t → bool;
}.

Definition set_env (e : gmap string string) (sar : stepActionRemote.t)
  : stepActionRemote.t :=
  {| stepActionRemote.Step := stepActionRemote.Step sar;
     stepActionRemote.RunContext := stepActionRemote.RunContext sar;
     stepActionRemote.compositeRunContext := stepActionRemote.compositeRunContext sar;
     stepActionRemote.compositeSteps := stepActionRemote.compositeSteps sar;
     stepActionRemote.action := stepActionRemote.action sar;
     stepActionRemote.env := e;
     stepActionRemote.remoteAction := stepActionRemote.remoteAction sar |}.

(** [getRunContext], [getStepModel], [getEnv], [getActionModel] and
    [getCompositeSteps] *)
Definition getRunContext (sar : stepActionRemote.t) : RunContext.t :=
  stepActionRemote.RunContext sar.

Definition getStepModel (sar : stepActionRemote.t) : model.Step :=
  stepActionRemote.Step sar.

Definition getEnv (sar : stepActionRemote.t) : gmap string string :=
  stepActionRemote.env sar.

Definition getActionModel (sar : stepActionRemote.t) : option model.Action :=
  stepActionRemote.action sar.

Definition getCompositeSteps (sar : stepActionRemote.t) : option compositeSteps.t :=
  stepActionRemote.compositeSteps sar.

Section stages.
Context `{Collaborators} `{StageCollaborators}.

(** [pre()]: the call itself empties the step's environment; the executor it
    returns resolves the reference and then runs the pre stage under its two
    conditions, the outer one ([shouldRunPreStep]) tested first. *)
Definition pre (sar : stepActionRemote.t) : stepActionRemote.t * Executor :=
  (set_env ∅ sar,
   NewPipelineExecutor
     [Some prepareActionExecutor;
      Some (If (If (runStepExecutor stepStagePre runPreStep) hasPreStep)
               shouldRunPreStep)]).

(** [post()] *)
Definition post : Executor :=
  If (If (runStepExecutor stepStagePost runPostStep) hasPostStep) shouldRunPostStep.

End stages.

(** Stage collaborators for the examples: an action with a pre step that is
    due, and no post step. *)
Definition exampleStages : StageCollaborators :=
  {| runPreStep := λ sar, {| final := sar; trace := [EvDebugf "pre"]; outcome := returned None |};
     hasPreStep := λ _, true;
     shouldRunPreStep := λ _, true;
     runPostStep := λ sar, {| final := sar; trace := [EvDebugf "post"]; outcome := returned None |};
     hasPostStep := λ _, false;
     shouldRunPostStep := λ _, true |}.
(** * Properties

    ** The pattern of [parseAction] and the scanner agree *)
Section pattern.
Import regexp.

Lemma span_app p s : (span p s).1 +:+ (span p s).2 = s.
Proof.
  induction s as [|a s IH]; simpl; [done|].
  destruct (p a); [|done]. destruct (span p s) as [x y]. simpl in *.
  change (String a (x +:+ y) = String a s). by f_equal.
Qed.

Lemma star_span p pos s caps k :
  rejects p k →
  star p pos s caps k = k (pos + String.length (span p s).1) (span p s).2 caps.
Proof.
  intros Hk. revert pos. induction s as [|a s IH]; intros pos; simpl.
  - by rewrite Nat.add_0_r.
  - destruct (p a) eqn:Hp.
    + rewrite IH. destruct (span p s) as [x y] eqn:Hs. simpl.
      replace (pos + S (String.length x)) with (S (pos + String.length x)) by lia.
      destruct (k _ y caps) eqn:Hky; [done|].
      by apply Hk.
    + simpl. by rewrite Nat.add_0_r.
Qed.


Lemma span_ext p q s : (∀ a, p a = q a) → span p s = span q s.
Proof.
  intros E. induction s as [|a s IH]; simpl; [done|]. by rewrite E, IH.
Qed.

Lemma span_prefix p s : String.substring 0 (String.length (span p s).1) s = (span p s).1.
Proof.
  induction s as [|a s IH]; simpl; [done|].
  destruct (p a); [|done]. destruct (span p s) as [x y]. simpl in *. by rewrite IH.
Qed.

Lemma span_all p s : allBytes p s = true → span p s = (s, EmptyString).
Proof.
  induction s as [|a s IH]; simpl; [done|].
  intros [Ha Hs]%andb_true_iff. rewrite Ha, IH by done. done.
Qed.

Lemma span_rest_empty p s : (span p s).2 = EmptyString → allBytes p s = true.
Proof.
  induction s as [|a s IH]; simpl; [done|].
  destruct (p a); [|done]. destruct (span p s) as [x y]. simpl in *. auto.
Qed.

Lemma span_rest_head p s a s' : (span p s).2 = String a s' → p a = false.
Proof.
  induction s as [|b s IH]; simpl; [done|].
  destruct (p b) eqn:Hb.
  - destruct (span p s) as [x y]. simpl in *. auto.
  - simpl. by intros [= <- _].
Qed.

Lemma accepts_segment a : accepts (NoneOf ["/"; "@"]%char) a = isSegmentByte a.
Proof.
  unfold isSegmentByte. simpl.
  destruct (Ascii.eqb_spec a "/") as [->|H1]; [done|].
  destruct (Ascii.eqb_spec a "@") as [->|H2]; [done|].
  rewrite bool_decide_eq_false_2; [done|].
  rewrite !elem_of_cons, elem_of_nil. tauto.
Qed.

Lemma accepts_path a : accepts (NoneOf ["@"%char]) a = isPathByte a.
Proof.
  unfold isPathByte. simpl.
  destruct (Ascii.eqb_spec a "@") as [->|H2]; [done|].
  rewrite bool_decide_eq_false_2; [done|].
  rewrite !elem_of_cons, elem_of_nil. tauto.
Qed.


Lemma substring_all s : String.substring 0 (String.length s) s = s.
Proof. induction s as [|a s IH]; simpl; [done|]. by rewrite IH. Qed.

Lemma retry_None (o : option (list string)) :
  match o with Some res => Some res | None => None end = o.
Proof. by destruct o. Qed.

Lemma run_refTail pos s caps k :
  run refTail pos s caps k =
  match s with
  | EmptyString => k pos EmptyString caps
  | String _ _ =>
      match expect "@" s with
      | Some ref =>
          if allBytes isRefByte ref
          then k (S pos + String.length ref) EmptyString (<[5 := s]> (<[6 := ref]> caps))
          else None
      | None => None
      end
  end.
Proof.
  unfold refTail. cbn [run]. destruct s as [|a ref]; [done|].
  rewrite retry_None. cbn [accepts expect].
  destruct (Ascii.eqb_spec a "@") as [->|Ha]; [|done].
  rewrite star_span by (by intros ????).
  rewrite (span_ext (accepts Dot) isRefByte) by done.
  destruct (allBytes isRefByte ref) eqn:Hall.
  - rewrite (span_all _ _ Hall). cbn [fst snd].
    replace (S pos + String.length ref - S pos) with (String.length ref) by lia.
    replace (S pos + String.length ref - pos) with (String.length (String "@" ref))
      by (simpl; lia).
    by rewrite !substring_all.
  - destruct (span isRefByte ref).2 eqn:Hrest; [|done].
    apply span_rest_empty in Hrest. congruence.
Qed.

Lemma refTail_rejects_path k :
  rejects isPathByte (λ pos s caps, run refTail pos s caps k).
Proof.
  intros a s pos caps Ha. rewrite run_refTail. cbn [expect].
  unfold isPathByte in Ha. by destruct (Ascii.eqb a "@").
Qed.

Lemma run_pathTail pos s caps k :
  run pathTail pos s caps k =
  match expect "/" s with
  | Some p =>
      run refTail (S pos + String.length (span isPathByte p).1) (span isPathByte p).2
          (<[3 := String "/" (span isPathByte p).1]> (<[4 := (span isPathByte p).1]> caps)) k
  | None => run refTail pos s caps k
  end.
Proof.
  unfold pathTail. cbn [run]. fold refTail.
  destruct s as [|a p]; [done|]. cbn [accepts expect].
  destruct (Ascii.eqb_spec a "/") as [->|Ha]; [|done].
  rewrite star_span.
  2:{ intros a s pos' caps' Ha. rewrite accepts_path in Ha.
      apply (refTail_rejects_path _ a s pos' _ Ha). }
  rewrite (span_ext _ isPathByte) by apply accepts_path.
  replace (S pos + String.length (span isPathByte p).1 - S pos)
    with (String.length (span isPathByte p).1) by lia.
  replace (S pos + String.length (span isPathByte p).1 - pos)
    with (S (String.length (span isPathByte p).1)) by lia.
  cbn [String.substring]. rewrite span_prefix.
  rewrite (run_refTail pos (String "/" p)). cbn [expect Ascii.eqb Bool.eqb].
  apply retry_None.
Qed.

Lemma pathTail_rejects_segment k :
  rejects isSegmentByte (λ pos s caps, run pathTail pos s caps k).
Proof.
  intros a s pos caps Ha. rewrite run_pathTail. cbn [expect].
  unfold isSegmentByte in Ha.
  destruct (Ascii.eqb a "/") eqn:E1; [done|].
  rewrite run_refTail. cbn [expect].
  by destruct (Ascii.eqb a "@").
Qed.

Lemma search_anchored r pos s : search (Cat Bol r) (S pos) s = None.
Proof.
  revert pos. induction s as [|a s IH]; intros pos; cbn [search run]; [done|].
  apply IH.
Qed.


Lemma run_Cap_Plus n c pos s caps k :
  rejects (accepts c) k →
  run (Cap n (Plus c)) pos s caps k =
  if String.eqb (span (accepts c) s).1 "" then None
  else k (pos + String.length (span (accepts c) s).1) (span (accepts c) s).2
         (<[n := (span (accepts c) s).1]> caps).
Proof.
  intros Hk. cbn [run]. destruct s as [|a s]; [done|]. cbn [span].
  destruct (accepts c a) eqn:Ha; [|done].
  rewrite star_span by (intros ?????; by apply Hk).
  pose proof (span_prefix (accepts c) s) as Hpre.
  destruct (span (accepts c) s) as [x y]. cbn [fst snd String.eqb] in *.
  replace (S pos + String.length x - pos) with (S (String.length x)) by lia.
  cbn [String.substring String.length]. rewrite Hpre.
  by replace (S pos + String.length x) with (pos + S (String.length x)) by lia.
Qed.

Lemma run_Chr_Lit b r pos s caps k :
  run (Cat (Chr (Lit b)) r) pos s caps k =
  match expect b s with
  | Some s' => run r (S pos) s' caps k
  | None => None
  end.
Proof.
  cbn [run accepts]. destruct s as [|a s]; [done|]. cbn [expect].
  by destruct (Ascii.eqb a b).
Qed.

Lemma afterOrg_rejects_segment k :
  rejects (accepts (NoneOf ["/"; "@"]%char)) (λ pos s caps, run afterOrgRe pos s caps k).
Proof.
  intros a s pos caps Ha. unfold afterOrgRe. rewrite run_Chr_Lit. cbn [expect].
  rewrite accepts_segment in Ha. unfold isSegmentByte in Ha.
  by destruct (Ascii.eqb a "/").
Qed.

Lemma search_actionPattern s : tail <$> search actionPattern 0 s = scanGroups s.
Proof.
  assert (search actionPattern 0 s =
          run (Cap 0 actionPattern) 0 s (replicate 7 EmptyString) (λ _ _ caps, Some caps)) as ->.
  { destruct s as [|a s]; cbn [search groups actionPattern Nat.add].
    - by rewrite retry_None.
    - unfold actionPattern at 2. rewrite search_anchored. by rewrite retry_None. }
  change actionPattern with
    (Cat Bol (Cat (Cap 1 (Plus (NoneOf ["/"; "@"]%char))) afterOrgRe)).
  set (k0 := λ (pos' : nat) (s' : string) (caps' : list string),
               Some (<[0 := String.substring 0 (pos' - 0) s]> caps')).
  change (tail <$> run (Cap 1 (Plus (NoneOf ["/"; "@"]%char))) 0 s (replicate 7 EmptyString)
                     (λ pos' s' caps', run afterOrgRe pos' s' caps' k0) = scanGroups s).
  rewrite run_Cap_Plus by apply afterOrg_rejects_segment.
  unfold scanGroups.
  rewrite (span_ext _ isSegmentByte) by apply accepts_segment.
  destruct (span isSegmentByte s) as [org afterOrg]. cbn [fst snd].
  destruct (String.eqb_spec org "") as [->|Horg].
  { cbn [orb]. destruct (expect "/" afterOrg); [|done]. by destruct (span _ _). }
  unfold afterOrgRe. rewrite run_Chr_Lit.
  destruct (expect "/" afterOrg) as [afterSlash|]; [|done].
  change (run (Cat ?r1 ?r2) ?p ?s ?c ?k) with (run r1 p s c (λ p' s' c', run r2 p' s' c' k)).
  rewrite run_Cap_Plus.
  2:{ intros a s' pos caps Ha. rewrite accepts_segment in Ha.
      by apply (pathTail_rejects_segment k0). }
  rewrite (span_ext _ isSegmentByte) by apply accepts_segment.
  destruct (span isSegmentByte afterSlash) as [repo afterRepo]. cbn [fst snd orb].
  destruct (String.eqb_spec repo "") as [->|Hrepo]; [done|].
  rewrite run_pathTail.
  destruct (expect "/" afterRepo) as [p|].
  - rewrite run_refTail. destruct (span isPathByte p) as [path afterPath]. cbn [fst snd].
    destruct afterPath as [|a r]; [done|].
    destruct (expect "@" (String a r)) as [ref|]; [|done].
    by destruct (allBytes isRefByte ref).
  - rewrite run_refTail. destruct afterRepo as [|a r]; [done|].
    destruct (expect "@" (String a r)) as [ref|]; [|done].
    by destruct (allBytes isRefByte ref).
Qed.


Lemma tail_groups (o : option (list string)) g l :
  tail <$> o = Some (g :: l) → ∃ whole, o = Some (whole :: g :: l).
Proof.
  destruct o as [[|whole l']|]; simpl; [done| |done].
  intros [= ->]. by exists whole.
Qed.

Lemma tail_no_match (o : option (list string)) : tail <$> o = None → o = None.
Proof. by destruct o. Qed.

Lemma parseAction_scan_eq s : parseAction s = scanAction s.
Proof.
  unfold parseAction, FindStringSubmatch, scanAction.
  pose proof (search_actionPattern s) as H. unfold scanGroups in H.
  destruct (span isSegmentByte s) as [org afterOrg].
  destruct (expect "/" afterOrg) as [afterSlash|].
  2:{ by rewrite (tail_no_match _ H). }
  destruct (span isSegmentByte afterSlash) as [repo afterRepo].
  destruct (String.eqb org "" || String.eqb repo "") eqn:Hempty.
  { rewrite (tail_no_match _ H). cbn. 
    destruct (match expect "/" afterRepo with Some p => span isPathByte p | None => _ end) as [path afterPath].
    by destruct (expect "@" afterPath). }
  cbn [orb].
  destruct (expect "/" afterRepo) as [p|].
  - destruct (span isPathByte p) as [path afterPath]. cbn [fst snd] in H.
    destruct afterPath as [|a r].
    { apply tail_groups in H as [whole ->]. done. }
    destruct (expect "@" (String a r)) as [ref|].
    2:{ by rewrite (tail_no_match _ H). }
    destruct (allBytes isRefByte ref).
    2:{ rewrite (tail_no_match _ H). cbn. by rewrite orb_true_r. }
    apply tail_groups in H as [whole ->]. cbn. by rewrite orb_false_r.
  - destruct afterRepo as [|a r].
    { apply tail_groups in H as [whole ->]. done. }
    destruct (expect "@" (String a r)) as [ref|].
    2:{ by rewrite (tail_no_match _ H). }
    destruct (allBytes isRefByte ref).
    2:{ rewrite (tail_no_match _ H). cbn. by rewrite orb_true_r. }
    apply tail_groups in H as [whole ->]. cbn. by rewrite orb_false_r.
Qed.
End pattern.

(** ** Facts about the string functions *)
Section string_facts.

Lemma append_cons a x y : String a x +:+ y = String a (x +:+ y).
Proof. reflexivity. Qed.

Lemma append_nil_l x : "" +:+ x = x.
Proof. reflexivity. Qed.

Lemma append_nil_r x : x +:+ "" = x.
Proof. induction x as [|a x IH]; [done|]. by rewrite append_cons, IH. Qed.

Lemma append_assoc x y z : (x +:+ y) +:+ z = x +:+ y +:+ z.
Proof. induction x as [|a x IH]; [done|]. by rewrite !append_cons, IH. Qed.

Lemma allBytes_app p x y : allBytes p (x +:+ y) = allBytes p x && allBytes p y.
Proof.
  induction x as [|a x IH]; [done|].
  rewrite append_cons. cbn [allBytes]. by rewrite IH, andb_assoc.
Qed.

Lemma allBytes_impl (p q : ascii → bool) s :
  (∀ a, p a = true → q a = true) → allBytes p s = true → allBytes q s = true.
Proof.
  intros Hpq. induction s as [|a s IH]; [done|]. cbn [allBytes].
  intros [Ha Hs]%andb_true_iff. rewrite (Hpq _ Ha). by apply IH.
Qed.

Lemma span_taken p s : allBytes p (span p s).1 = true.
Proof.
  induction s as [|a s IH]; [done|]. cbn [span].
  destruct (p a) eqn:Ha; [|done].
  destruct (span p s) as [x y]. cbn [fst allBytes] in *. by rewrite Ha, IH.
Qed.

(** [strings.Contains] with a one-byte needle. *)
Lemma Contains_byte s c :
  strings.Contains s (String c "") = negb (allBytes (λ a, negb (Ascii.eqb a c)) s).
Proof.
  induction s as [|a s IH]; [done|]. cbn [strings.Contains strings.HasPrefix allBytes].
  rewrite IH. by destruct (Ascii.eqb a c).
Qed.

Lemma Cut_None s c :
  strings.Cut s c = None ↔ allBytes (λ a, negb (Ascii.eqb a c)) s = true.
Proof.
  induction s as [|a s IH]; [done|]. cbn [strings.Cut allBytes].
  destruct (Ascii.eqb a c); cbn [negb andb]; [done|].
  destruct (strings.Cut s c) as [[??]|]; [|done].
  split; [done|]. intros Hs. by apply IH in Hs.
Qed.

Lemma Cut_app x c y :
  allBytes (λ a, negb (Ascii.eqb a c)) x = true →
  strings.Cut (x +:+ String c y) c = Some (x, y).
Proof.
  induction x as [|a x IH].
  - intros _. rewrite append_nil_l. cbn [strings.Cut]. by rewrite Ascii.eqb_refl.
  - cbn [allBytes]. intros [Ha Hx]%andb_true_iff.
    rewrite append_cons. cbn [strings.Cut]. rewrite (IH Hx).
    by destruct (Ascii.eqb a c).
Qed.

Lemma Cut_Some s c before after :
  strings.Cut s c = Some (before, after) →
  s = before +:+ String c after ∧ allBytes (λ a, negb (Ascii.eqb a c)) before = true.
Proof.
  revert before. induction s as [|a s IH]; intros before; cbn [strings.Cut]; [done|].
  destruct (Ascii.eqb a c) eqn:Hac.
  - intros [= <- <-]. apply Ascii.eqb_eq in Hac as ->. done.
  - destruct (strings.Cut s c) as [[b' a']|]; [|done].
    intros [= <- <-]. destruct (IH b' eq_refl) as [-> Hb].
    rewrite append_cons. cbn [allBytes]. by rewrite Hac, Hb.
Qed.

Lemma HasPrefix_app s p : strings.HasPrefix (p +:+ s) p = true.
Proof.
  induction p as [|a p IH]; [done|].
  rewrite append_cons. cbn [strings.HasPrefix]. by rewrite Ascii.eqb_refl.
Qed.

Lemma substring_app p s :
  String.substring (String.length p) (String.length (p +:+ s) - String.length p) (p +:+ s) = s.
Proof.
  induction p as [|a p IH].
  - rewrite append_nil_l. cbn [String.length]. rewrite Nat.sub_0_r.
    apply substring_all.
  - rewrite append_cons. cbn [String.length String.substring]. apply IH.
Qed.

Lemma TrimPrefix_app s p : strings.TrimPrefix (p +:+ s) p = s.
Proof. unfold strings.TrimPrefix. rewrite HasPrefix_app. apply substring_app. Qed.

Lemma HasPrefix_split s p : strings.HasPrefix s p = true → ∃ x, s = p +:+ x.
Proof.
  revert s. induction p as [|a p IH]; intros s; [by exists s|].
  cbn [strings.HasPrefix]. destruct s as [|b s]; [done|].
  destruct (Ascii.eqb_spec b a) as [->|]; [|done].
  intros [x ->]%IH. by exists x.
Qed.

End string_facts.

(** ** The shape of a parsed reference *)
Section references.

Lemma expect_Some c s s' : expect c s = Some s' → s = String c s'.
Proof.
  destruct s as [|a s]; [done|]. cbn [expect].
  destruct (Ascii.eqb_spec a c) as [->|]; [|done]. by intros [= ->].
Qed.

(** A reference that parses is [org/repo], an optional [/path] and [@ref]
    laid end to end; neither the organisation, the repository nor the path
    holds an [@], so the [@] before the ref is the first one of the string. *)
Lemma parseAction_Some s ra :
  parseAction s = Some ra →
  ∃ slashPath,
    s = remoteAction.Org ra +:+ "/" +:+ remoteAction.Repo ra +:+ slashPath
        +:+ "@" +:+ remoteAction.Ref ra
    ∧ (slashPath = "" ∧ remoteAction.Path ra = ""
       ∨ slashPath = "/" +:+ remoteAction.Path ra)
    ∧ remoteAction.URL ra = ""
    ∧ remoteAction.Org ra ≠ "" ∧ remoteAction.Repo ra ≠ "" ∧ remoteAction.Ref ra ≠ ""
    ∧ allBytes isSegmentByte (remoteAction.Org ra) = true
    ∧ allBytes isSegmentByte (remoteAction.Repo ra) = true
    ∧ allBytes isPathByte (remoteAction.Path ra) = true
    ∧ allBytes isRefByte (remoteAction.Ref ra) = true.
Proof.
  rewrite parseAction_scan_eq. unfold scanAction.
  pose proof (span_app isSegmentByte s) as Hs.
  pose proof (span_taken isSegmentByte s) as Horg.
  destruct (span isSegmentByte s) as [org afterOrg]. cbn [fst snd] in *.
  destruct (expect "/" afterOrg) as [afterSlash|] eqn:E1; [|done].
  apply expect_Some in E1 as ->.
  pose proof (span_app isSegmentByte afterSlash) as Hs2.
  pose proof (span_taken isSegmentByte afterSlash) as Hrepo.
  destruct (span isSegmentByte afterSlash) as [repo afterRepo]. cbn [fst snd] in *.
  assert (∃ slashPath path afterPath,
            match expect "/" afterRepo with
            | Some p => span isPathByte p
            | None => (EmptyString, afterRepo)
            end = (path, afterPath)
            ∧ afterRepo = slashPath +:+ afterPath
            ∧ (slashPath = "" ∧ path = "" ∨ slashPath = "/" +:+ path)
            ∧ allBytes isPathByte path = true) as (slashPath & path & afterPath & -> & -> & Hsl & Hpath).
  { destruct (expect "/" afterRepo) as [p|] eqn:E2.
    - apply expect_Some in E2 as ->.
      exists ("/" +:+ (span isPathByte p).1), (span isPathByte p).1, (span isPathByte p).2.
      split; [by destruct (span isPathByte p)|].
      split; [|split; [by right|apply span_taken]].
      by rewrite append_assoc, append_cons, append_nil_l, span_app.
    - exists "", "", afterRepo. repeat split; auto. }
  destruct (expect "@" afterPath) as [ref|] eqn:E3; [|done].
  apply expect_Some in E3 as ->.
  destruct (String.eqb_spec org "") as [|Horg']; [done|].
  destruct (String.eqb_spec repo "") as [|Hrepo']; [done|].
  destruct (String.eqb_spec ref "") as [|Href']; [done|].
  destruct (allBytes isRefByte ref) eqn:Href; [|done].
  cbn [orb negb]. intros [= <-]. cbn.
  exists slashPath. repeat split; try done.
  subst s afterSlash. reflexivity.
Qed.


Lemma SplitN_2 x c :
  strings.SplitN x c 2 =
  match strings.Cut x c with Some (h, r) => [h; r] | None => [x] end.
Proof. cbn [strings.SplitN]. by destruct (strings.Cut x c) as [[??]|]. Qed.

Lemma SplitN_3 x c :
  strings.SplitN x c 3 =
  match strings.Cut x c with
  | Some (h, x') => h :: strings.SplitN x' c 2
  | None => [x]
  end.
Proof. reflexivity. Qed.

Lemma SplitN_4 x c :
  strings.SplitN x c 4 =
  match strings.Cut x c with
  | Some (h, x') => h :: strings.SplitN x' c 3
  | None => [x]
  end.
Proof. reflexivity. Qed.

Lemma newRemoteAction_bare s :
  strings.HasPrefix s "https://" = false →
  strings.HasPrefix s "http://" = false →
  newRemoteAction s = parseAction s.
Proof.
  intros H1 H2. unfold newRemoteAction, newRemoteAction_loop, newRemoteAction_scheme.
  by rewrite H1, H2.
Qed.

(** What [newRemoteAction] does with a string that starts with a scheme. *)
Lemma newRemoteAction_url schema x :
  schema ∈ schemas →
  newRemoteAction (schema +:+ x) =
  if hasAServicePrefix (schema +:+ x) then
    match strings.SplitN x "/" 3 with
    | [host; extra; rest] =>
        remoteAction.set_URL (schema +:+ host +:+ "/" +:+ extra) <$> parseAction rest
    | _ => None
    end
  else
    match strings.SplitN x "/" 2 with
    | [host; rest] => remoteAction.set_URL (schema +:+ host) <$> parseAction rest
    | _ => None
    end.
Proof.
  intros Hschema. unfold newRemoteAction, newRemoteAction_loop.
  assert (newRemoteAction_scheme (schema +:+ x) schema = Some
    (if hasAServicePrefix (schema +:+ x) then
       match strings.SplitN x "/" 3 with
       | [host; extra; rest] =>
           remoteAction.set_URL (schema +:+ host +:+ "/" +:+ extra) <$> parseAction rest
       | _ => None
       end
     else
       match strings.SplitN x "/" 2 with
       | [host; rest] => remoteAction.set_URL (schema +:+ host) <$> parseAction rest
       | _ => None
       end)) as Hscheme.
  { unfold newRemoteAction_scheme. by rewrite HasPrefix_app, TrimPrefix_app. }
  unfold schemas in Hschema.
  apply elem_of_cons in Hschema as [->|Hschema].
  - by rewrite Hscheme.
  - apply list_elem_of_singleton in Hschema as ->.
    change (newRemoteAction_scheme ("http://" +:+ x) "https://") with (@None (option remoteAction.t)).
    by rewrite Hscheme.
Qed.

(** Whatever [newRemoteAction] returns was parsed by [parseAction] from the
    end of the string, and only the base URL was changed afterwards. *)
Lemma newRemoteAction_Some s ra :
  newRemoteAction s = Some ra →
  ∃ pre rest ra0,
    s = pre +:+ rest ∧ parseAction rest = Some ra0
    ∧ ra = remoteAction.set_URL (remoteAction.URL ra) ra0.
Proof.
  destruct (strings.HasPrefix s "https://") eqn:H1;
    [|destruct (strings.HasPrefix s "http://") eqn:H2].
  3:{ rewrite newRemoteAction_bare by done. intros Hp. exists "", s, ra.
      split; [done|]. split; [done|]. by destruct ra. }
  all: match goal with
       | Hp : strings.HasPrefix _ ?schema = true |- _ =>
           apply HasPrefix_split in Hp as [x ->];
           rewrite (newRemoteAction_url schema) by (unfold schemas; set_solver)
       end.
  all: destruct (hasAServicePrefix _).
  all: rewrite ?SplitN_3, ?SplitN_2.
  all: destruct (strings.Cut x "/") as [[h x']|] eqn:Hx; try done.
  all: rewrite ?SplitN_2.
  all: try (destruct (strings.Cut x' "/") as [[e r]|] eqn:Hx'; try done).
  all: apply Cut_Some in Hx as [-> _]; try apply Cut_Some in Hx' as [-> _].
  all: match goal with
       | |- _ <$> parseAction ?r = _ → _ =>
           destruct (parseAction r) as [ra0|] eqn:Hra0; [|done];
           intros [= <-]
       end.
  all: match goal with
       | Hp : parseAction ?r = Some ?ra0
         |- ∃ _ _ _, ?schema +:+ ?h +:+ String "/" ?t = _ ∧ _ =>
           first
             [ exists (schema +:+ h +:+ "/"), r, ra0;
               split; [by rewrite !append_assoc|done]
             | match t with
               | ?e +:+ String "/" r =>
                   exists (schema +:+ h +:+ "/" +:+ e +:+ "/"), r, ra0;
                   split; [by rewrite !append_assoc|done]
               end ]
       end.
Qed.

Lemma span_stop p x y :
  allBytes p x = true →
  (∀ a y', y = String a y' → p a = false) →
  span p (x +:+ y) = (x, y).
Proof.
  intros Hx Hy. induction x as [|a x IH].
  - rewrite append_nil_l. destruct y as [|b y']; [done|].
    cbn [span]. by rewrite (Hy b y' eq_refl).
  - cbn [allBytes] in Hx. apply andb_true_iff in Hx as [Ha Hx].
    rewrite append_cons. cbn [span]. by rewrite Ha, (IH Hx).
Qed.

(** The converse of [parseAction_Some]: a string laid out in this way parses
    to its parts. *)
Lemma parseAction_print org repo slashPath path ref :
  org ≠ "" → repo ≠ "" → ref ≠ "" →
  allBytes isSegmentByte org = true →
  allBytes isSegmentByte repo = true →
  allBytes isPathByte path = true →
  allBytes isRefByte ref = true →
  (slashPath = "" ∧ path = "" ∨ slashPath = "/" +:+ path) →
  parseAction (org +:+ "/" +:+ repo +:+ slashPath +:+ "@" +:+ ref) =
  Some {| remoteAction.URL := ""; remoteAction.Org := org; remoteAction.Repo := repo;
          remoteAction.Path := path; remoteAction.Ref := ref |}.
Proof.
  intros Horg Hrepo Href Ho Hr Hp Hf Hsl.
  rewrite parseAction_scan_eq. unfold scanAction.
  rewrite (span_stop isSegmentByte org _ Ho) by (by intros a y' [= <- _]).
  change (expect "/" ("/" +:+ repo +:+ slashPath +:+ "@" +:+ ref))
    with (Some (repo +:+ slashPath +:+ "@" +:+ ref)).
  cbn beta iota.
  assert (span isSegmentByte (repo +:+ slashPath +:+ "@" +:+ ref)
          = (repo, slashPath +:+ "@" +:+ ref)) as ->.
  { apply span_stop; [done|]. intros a y'.
    destruct Hsl as [[-> _]| ->]; by intros [= <- _]. }
  cbn beta iota.
  assert (match expect "/" (slashPath +:+ "@" +:+ ref) with
          | Some p => span isPathByte p
          | None => (EmptyString, slashPath +:+ "@" +:+ ref)
          end = (path, "@" +:+ ref)) as ->.
  { destruct Hsl as [[-> ->]| ->]; [done|].
    change (expect "/" (("/" +:+ path) +:+ "@" +:+ ref))
      with (Some (path +:+ "@" +:+ ref)).
    cbn beta iota. apply span_stop; [done|]. by intros a y' [= <- _]. }
  change (expect "@" ("@" +:+ ref)) with (Some ref). cbn beta iota.
  destruct (String.eqb_spec org "") as [|_]; [done|].
  destruct (String.eqb_spec repo "") as [|_]; [done|].
  destruct (String.eqb_spec ref "") as [|_]; [done|].
  by rewrite Hf.
Qed.

End references.

(** ** Failing to parse *)
Section failures.

Lemma segment_no_at a : isSegmentByte a = true → negb (Ascii.eqb a "@") = true.
Proof. unfold isSegmentByte. by intros [_ ?]%andb_true_iff. Qed.

Lemma segment_no_slash a : isSegmentByte a = true → negb (Ascii.eqb a "/") = true.
Proof. unfold isSegmentByte. by intros [? _]%andb_true_iff. Qed.

(** The first [@] of a parsed reference is the one before its ref. *)
Lemma parseAction_Cut s ra :
  parseAction s = Some ra →
  ∃ slashPath,
    strings.Cut s "@" =
      Some (remoteAction.Org ra +:+ "/" +:+ remoteAction.Repo ra +:+ slashPath,
            remoteAction.Ref ra)
    ∧ (slashPath = "" ∧ remoteAction.Path ra = ""
       ∨ slashPath = "/" +:+ remoteAction.Path ra).
Proof.
  intros (slashPath & Hs & Hsl & _ & _ & _ & _ & Horg & Hrepo & Hpath & _)%parseAction_Some.
  exists slashPath. split; [|done].
  rewrite Hs at 1.
  replace (remoteAction.Org ra +:+ "/" +:+ remoteAction.Repo ra +:+ slashPath
           +:+ "@" +:+ remoteAction.Ref ra)
    with ((remoteAction.Org ra +:+ "/" +:+ remoteAction.Repo ra +:+ slashPath)
          +:+ String "@" (remoteAction.Ref ra)) by (by rewrite !append_assoc).
  apply Cut_app.
  rewrite !allBytes_app.
  rewrite (allBytes_impl _ _ _ segment_no_at Horg).
  rewrite (allBytes_impl _ _ _ segment_no_at Hrepo).
  destruct Hsl as [[-> _]| ->]; [done|].
  unfold isPathByte in Hpath. rewrite allBytes_app. by rewrite Hpath.
Qed.

Lemma segment_bytes x :
  allBytes (λ a, negb (Ascii.eqb a "/")) x = true →
  allBytes (λ a, negb (Ascii.eqb a "@")) x = true →
  allBytes isSegmentByte x = true.
Proof.
  induction x as [|a x IH]; [done|]. cbn [allBytes]. unfold isSegmentByte at 1.
  intros [-> ?]%andb_true_iff [-> ?]%andb_true_iff. by apply IH.
Qed.

(** When [parseAction] rejects a string, exactly: it has no [@]; or, cut at
    its first [@], nothing follows, or a line break does, or what stands
    before does not start with two non-empty segments. *)
Lemma parseAction_None r :
  parseAction r = None ↔
  strings.Contains r "@" = false
  ∨ ∃ front version,
      strings.Cut r "@" = Some (front, version)
      ∧ (version = "" ∨ tooFewSegments front = true
         ∨ strings.Contains version (String regexp.newline "") = true).
Proof.
  split.
  - intros Hnone. destruct (strings.Cut r "@") as [[front version]|] eqn:Hcut.
    2:{ left. rewrite Contains_byte. apply negb_false_iff. by apply Cut_None. }
    right. exists front, version. split; [done|].
    destruct (String.eqb_spec version "") as [|Hversion]; [by left|].
    destruct (tooFewSegments front) eqn:Hfew; [by right; left|].
    destruct (strings.Contains version (String regexp.newline "")) eqn:Hnl;
      [by right; right|].
    exfalso.
    rewrite Contains_byte in Hnl. apply negb_false_iff in Hnl.
    apply Cut_Some in Hcut as [-> Hfront].
    unfold tooFewSegments in Hfew. rewrite SplitN_3 in Hfew.
    destruct (strings.Cut front "/") as [[org x']|] eqn:Hc1; [|done].
    rewrite SplitN_2 in Hfew.
    apply Cut_Some in Hc1 as [-> Horg].
    rewrite allBytes_app in Hfront. apply andb_true_iff in Hfront as [Horg' Hx'].
    cbn [allBytes] in Hx'. apply andb_true_iff in Hx' as [_ Hx'].
    destruct (strings.Cut x' "/") as [[repo path]|] eqn:Hc2.
    + apply orb_false_iff in Hfew as [Ho Hr].
      apply Cut_Some in Hc2 as [-> Hrepo].
      rewrite allBytes_app in Hx'. apply andb_true_iff in Hx' as [Hrepo' Hpath].
      cbn [allBytes] in Hpath. apply andb_true_iff in Hpath as [_ Hpath].
      assert (parseAction (org +:+ "/" +:+ repo +:+ ("/" +:+ path) +:+ "@" +:+ version)
              ≠ None) as Hsome.
      { rewrite (parseAction_print org repo ("/" +:+ path) path version); try done.
        - by destruct (String.eqb_spec org "").
        - by destruct (String.eqb_spec repo "").
        - by apply segment_bytes.
        - by apply segment_bytes.
        - by right. }
      apply Hsome. rewrite <- Hnone. f_equal.
      by rewrite ?append_assoc, ?append_cons, ?append_assoc, ?append_cons, ?append_assoc.
    + apply orb_false_iff in Hfew as [Ho Hr].
      apply Cut_None in Hc2.
      assert (parseAction (org +:+ "/" +:+ x' +:+ "" +:+ "@" +:+ version) ≠ None)
        as Hsome.
      { rewrite (parseAction_print org x' "" "" version); try done.
        - by destruct (String.eqb_spec org "").
        - by destruct (String.eqb_spec x' "").
        - by apply segment_bytes.
        - by apply segment_bytes.
        - by left. }
      apply Hsome. rewrite <- Hnone. f_equal.
      by rewrite ?append_assoc, ?append_cons, ?append_assoc, ?append_cons, ?append_assoc.
  - intros Hbad. destruct (parseAction r) as [ra|] eqn:Hp; [exfalso|done].
    pose proof (parseAction_Some _ _ Hp)
      as (_ & _ & _ & _ & Horg & Hrepo & Href & Ho & Hr & _ & Hre).
    apply parseAction_Cut in Hp as (slashPath & Hcut & Hsl).
    destruct Hbad as [Hno|(front & version & Hcut' & Hbad)].
    { rewrite Contains_byte in Hno. apply negb_false_iff, Cut_None in Hno. congruence. }
    rewrite Hcut in Hcut'. injection Hcut' as <- <-.
    destruct Hbad as [?|[Hfew|Hnl]]; [done| |].
    + unfold tooFewSegments in Hfew.
      change (remoteAction.Org ra +:+ "/" +:+ remoteAction.Repo ra +:+ slashPath)
        with (remoteAction.Org ra +:+ String "/" (remoteAction.Repo ra +:+ slashPath))
        in Hfew.
      rewrite SplitN_3, (Cut_app _ "/" _ (allBytes_impl _ _ _ segment_no_slash Ho)),
        SplitN_2 in Hfew.
      assert (String.eqb (remoteAction.Org ra) "" || String.eqb (remoteAction.Repo ra) ""
              = false) as Hboth.
      { destruct (String.eqb_spec (remoteAction.Org ra) ""); [done|].
        by destruct (String.eqb_spec (remoteAction.Repo ra) ""). }
      destruct (strings.Cut (remoteAction.Repo ra +:+ slashPath) "/") as [[??]|] eqn:Hc.
      * apply Cut_Some in Hc as [Heq Hs].
        destruct Hsl as [[-> _]| ->].
        -- pose proof (allBytes_impl _ _ _ segment_no_slash Hr) as Hr'.
           rewrite append_nil_r in Heq.
           rewrite Heq, allBytes_app in Hr'. apply andb_true_iff in Hr' as [_ Hr'].
           cbn [allBytes] in Hr'. by rewrite Ascii.eqb_refl in Hr'.
        -- change (remoteAction.Repo ra +:+ "/" +:+ remoteAction.Path ra)
             with (remoteAction.Repo ra +:+ String "/" (remoteAction.Path ra)) in Heq.
           pose proof (Cut_app _ "/" (remoteAction.Path ra)
                         (allBytes_impl _ _ _ segment_no_slash Hr)) as Hc'.
           rewrite Heq, (Cut_app _ "/" _ Hs) in Hc'. injection Hc' as -> _.
           congruence.
      * apply orb_true_iff in Hfew as [Hfew|Hfew];
          apply String.eqb_eq in Hfew; [done|].
        destruct (remoteAction.Repo ra); [done|discriminate Hfew].
    + rewrite Contains_byte in Hnl. unfold isRefByte in Hre. by rewrite Hre in Hnl.
Qed.

(** When [newRemoteAction] rejects a string that starts with a scheme: the
    text after the scheme has too few pieces for a host (and, when the
    service-prefix predicate holds, one more segment) and a reference, or the
    reference, the last piece, is rejected by [parseAction]. *)
Lemma newRemoteAction_None_url schema x :
  schema ∈ schemas →
  let pieces := if hasAServicePrefix (schema +:+ x) then 3 else 2 in
  newRemoteAction (schema +:+ x) = None ↔
  length (strings.SplitN x "/" pieces) < pieces
  ∨ ∃ r, strings.SplitN x "/" pieces !! (pieces - 1) = Some r ∧ parseAction r = None.
Proof.
  intros Hschema. rewrite newRemoteAction_url by done. cbv zeta.
  destruct (hasAServicePrefix _).
  - rewrite SplitN_3.
    destruct (strings.Cut x "/") as [[h x']|];
      [|split; [intros _; left; cbn; lia|done]].
    rewrite SplitN_2.
    destruct (strings.Cut x' "/") as [[e r]|];
      [|split; [intros _; left; cbn; lia|done]].
    cbn [length lookup list_lookup Nat.sub].
    destruct (parseAction r) as [ra|] eqn:Hp; cbn [fmap option_fmap option_map].
    + split; [done|]. intros [?|(r' & [= <-] & ?)]; [lia|congruence].
    + split; [|done]. intros _. right. by exists r.
  - rewrite SplitN_2.
    destruct (strings.Cut x "/") as [[h r]|];
      [|split; [intros _; left; cbn; lia|done]].
    cbn [length lookup list_lookup Nat.sub].
    destruct (parseAction r) as [ra|] eqn:Hp; cbn [fmap option_fmap option_map].
    + split; [done|]. intros [?|(r' & [= <-] & ?)]; [lia|congruence].
    + split; [|done]. intros _. right. by exists r.
Qed.

End failures.

(** ** The reference parser: claims *)
Section parser_claims.

(** C3, as stated, fails where the version is read as the text after the
    last [@]: the string [org/repo@v1@] has nothing after its last [@], and
    it parses, to the ref [v1@]. *)
Lemma empty_version_after_last_at_counterexample :
  ¬ (∀ s before, cutAtLast s "@" = Some (before, "") → newRemoteAction s = None).
Proof.
  intros Hclaim.
  specialize (Hclaim "org/repo@v1@" "org/repo@v1" eq_refl).
  vm_compute in Hclaim. discriminate Hclaim.
Qed.

(** C3 (amended). A reference is rejected, [parseAction] returning nil, when
    it has no [@]; or when, cut at its first [@], nothing follows it, or what
    stands before it does not start with two non-empty [/]-separated
    segments (the organisation and the repository); the only other reference
    rejected is one with a line break after its first [@].  A bare "uses"
    string is itself the reference.  After a scheme the reference is what
    follows the host (and one more segment when the service-prefix predicate
    holds), and the string is rejected when it has too few [/]-separated
    pieces for that, or when its reference is.  What [newRemoteAction]
    returns is never partial: organisation, repository and ref are all
    non-empty. *)
Theorem unpinned_or_short_reference_fails :
  let rejected (r : string) : Prop :=
    strings.Contains r "@" = false
    ∨ ∃ front version,
        strings.Cut r "@" = Some (front, version)
        ∧ (version = "" ∨ tooFewSegments front = true
           ∨ strings.Contains version (String regexp.newline "") = true) in
  (∀ r, parseAction r = None ↔ rejected r)
  ∧ (∀ s, strings.HasPrefix s "https://" = false →
          strings.HasPrefix s "http://" = false →
          (newRemoteAction s = None ↔ rejected s))
  ∧ (∀ schema x,
       schema ∈ schemas →
       let pieces := if hasAServicePrefix (schema +:+ x) then 3 else 2 in
       newRemoteAction (schema +:+ x) = None ↔
       length (strings.SplitN x "/" pieces) < pieces
       ∨ ∃ r, strings.SplitN x "/" pieces !! (pieces - 1) = Some r ∧ rejected r)
  ∧ (∀ s ra, newRemoteAction s = Some ra →
             remoteAction.Org ra ≠ "" ∧ remoteAction.Repo ra ≠ ""
             ∧ remoteAction.Ref ra ≠ "").
Proof.
  cbv zeta. split; [apply parseAction_None|]. split; [|split].
  - intros s H1 H2. rewrite newRemoteAction_bare by done. apply parseAction_None.
  - intros schema x Hschema.
    rewrite (newRemoteAction_None_url schema x Hschema).
    split; (intros [?|(r & Hr & Hbad)]; [by left|right; exists r; split; [done|]]);
      by apply parseAction_None.
  - intros s ra (pre & rest & ra0 & _ & Hp & ->)%newRemoteAction_Some.
    apply parseAction_Some in Hp as (_ & _ & _ & _ & ? & ? & ? & _). done.
Qed.

Lemma unpinned_or_short_reference_fails_witness :
  newRemoteAction "org/repo" = None
  ∧ newRemoteAction "org/repo@" = None
  ∧ newRemoteAction "repo@refs/heads/main" = None
  ∧ newRemoteAction "/repo@v1" = None
  ∧ newRemoteAction "https://u@example.com/org/repo" = None
  ∧ newRemoteAction "https://example.com/repo@v1" = None
  ∧ newRemoteAction "https://example.com" = None
  ∧ newRemoteAction "https://internal-git.juegostudio.net/git@v1" = None
  ∧ newRemoteAction "https://internal-git.juegostudio.net/git/repo@v1" = None.
Proof.
  destruct unpinned_or_short_reference_fails as (_ & Hbare & Hurl & _).
  assert ("https://" ∈ schemas) as Hhttps by (unfold schemas; apply elem_of_cons; by left).
  split; [|split; [|split; [|split; [|split; [|split; [|split; [|split]]]]]]].
  - apply (Hbare "org/repo" eq_refl eq_refl). left. reflexivity.
  - apply (Hbare "org/repo@" eq_refl eq_refl). right.
    exists "org/repo", "". split; [reflexivity|]. left. reflexivity.
  - apply (Hbare "repo@refs/heads/main" eq_refl eq_refl). right.
    exists "repo", "refs/heads/main". split; [reflexivity|]. right; left. reflexivity.
  - apply (Hbare "/repo@v1" eq_refl eq_refl). right.
    exists "/repo", "v1". split; [reflexivity|]. right; left. reflexivity.
  - apply (Hurl "https://" "u@example.com/org/repo" Hhttps). right.
    exists "org/repo". split; [reflexivity|]. left. reflexivity.
  - apply (Hurl "https://" "example.com/repo@v1" Hhttps). right.
    exists "repo@v1". split; [reflexivity|]. right.
    exists "repo", "v1". split; [reflexivity|]. right; left. reflexivity.
  - apply (Hurl "https://" "example.com" Hhttps). left. vm_compute. lia.
  - apply (Hurl "https://" "internal-git.juegostudio.net/git@v1" Hhttps). left.
    vm_compute. lia.
  - apply (Hurl "https://" "internal-git.juegostudio.net/git/repo@v1" Hhttps). right.
    exists "repo@v1". split; [reflexivity|]. right.
    exists "repo", "v1". split; [reflexivity|]. right; left. reflexivity.
Defined.

(** C5. After an [http://] or [https://] scheme the parser takes the host,
    and when the service-prefix predicate holds of the string one more path
    segment, as the base URL; what is left is parsed by [parseAction]. *)
Theorem scheme_prefixed_reference (schema host extra rest : string) :
  schema ∈ schemas →
  strings.Contains host "/" = false →
  (strings.Contains extra "/" = false →
   hasAServicePrefix (schema +:+ host +:+ "/" +:+ extra +:+ "/" +:+ rest) = true →
   newRemoteAction (schema +:+ host +:+ "/" +:+ extra +:+ "/" +:+ rest) =
   remoteAction.set_URL (schema +:+ host +:+ "/" +:+ extra) <$> parseAction rest)
  ∧ (hasAServicePrefix (schema +:+ host +:+ "/" +:+ rest) = false →
     newRemoteAction (schema +:+ host +:+ "/" +:+ rest) =
     remoteAction.set_URL (schema +:+ host) <$> parseAction rest)
  ∧ newRemoteAction "https://example.com/org/repo@v1" =
    Some {| remoteAction.URL := "https://example.com"; remoteAction.Org := "org";
            remoteAction.Repo := "repo"; remoteAction.Path := "";
            remoteAction.Ref := "v1" |}.
Proof.
  intros Hschema Hhost. rewrite Contains_byte in Hhost.
  apply negb_false_iff in Hhost.
  split; [|split; [|by vm_compute]].
  - intros Hextra Hsvc. rewrite Contains_byte in Hextra.
    apply negb_false_iff in Hextra.
    rewrite newRemoteAction_url, Hsvc by done.
    change (host +:+ "/" +:+ extra +:+ "/" +:+ rest)
      with (host +:+ String "/" (extra +:+ String "/" rest)).
    rewrite SplitN_3, (Cut_app host "/" _ Hhost), SplitN_2.
    by rewrite (Cut_app extra "/" _ Hextra).
  - intros Hsvc. rewrite newRemoteAction_url, Hsvc by done.
    change (host +:+ "/" +:+ rest) with (host +:+ String "/" rest).
    by rewrite SplitN_2, (Cut_app host "/" _ Hhost).
Qed.

Lemma scheme_prefixed_reference_witness :
  newRemoteAction "https://internal-git.juegostudio.net/git/org/repo/dir@v1" =
    remoteAction.set_URL "https://internal-git.juegostudio.net/git"
      <$> parseAction "org/repo/dir@v1"
  ∧ newRemoteAction "http://example.com/org/repo@v1" =
    remoteAction.set_URL "http://example.com" <$> parseAction "org/repo@v1".
Proof.
  split.
  - apply (proj1 (scheme_prefixed_reference "https://" "internal-git.juegostudio.net"
                    "git" "org/repo/dir@v1"
                    ltac:(unfold schemas; apply elem_of_cons; by left) eq_refl));
      reflexivity.
  - apply (proj1 (proj2 (scheme_prefixed_reference "http://" "example.com" ""
                    "org/repo@v1"
                    ltac:(unfold schemas; apply elem_of_cons; right;
                          apply elem_of_cons; by left) eq_refl))).
    reflexivity.
Defined.

(** C6, as stated, fails: with two [@] in the string the ref is what follows
    the first of them, not the last. *)
Lemma version_after_last_at_counterexample :
  ¬ (∀ ra, parseAction "org/repo/dir@v1@v2" = Some ra →
           ∃ before,
             cutAtLast "org/repo/dir@v1@v2" "@" = Some (before, remoteAction.Ref ra)).
Proof.
  intros Hclaim.
  destruct (Hclaim {| remoteAction.URL := ""; remoteAction.Org := "org";
                      remoteAction.Repo := "repo"; remoteAction.Path := "dir";
                      remoteAction.Ref := "v1@v2" |}) as [before Hbefore].
  - by vm_compute.
  - vm_compute in Hbefore. discriminate Hbefore.
Qed.

(** C6 (amended). A bare reference that parses is cut at its first [@]: the
    ref is everything after it, and before it stand the organisation and the
    repository, the first two [/]-separated segments, both non-empty, and
    then either nothing (the path is empty) or a [/] and the path. *)
Theorem bare_reference_fields :
  parseAction "actions/checkout@v4" =
    Some {| remoteAction.URL := ""; remoteAction.Org := "actions";
            remoteAction.Repo := "checkout"; remoteAction.Path := "";
            remoteAction.Ref := "v4" |}
  ∧ remoteAction.Path <$> parseAction "actions/checkout/subdir@v4" = Some "subdir"
  ∧ ∀ s ra,
      parseAction s = Some ra →
      ∃ slashPath,
        strings.Cut s "@" =
          Some (remoteAction.Org ra +:+ "/" +:+ remoteAction.Repo ra +:+ slashPath,
                remoteAction.Ref ra)
        ∧ (slashPath = "" ∧ remoteAction.Path ra = ""
           ∨ slashPath = "/" +:+ remoteAction.Path ra)
        ∧ remoteAction.Org ra ≠ "" ∧ remoteAction.Repo ra ≠ ""
        ∧ strings.Contains (remoteAction.Org ra) "/" = false
        ∧ strings.Contains (remoteAction.Repo ra) "/" = false.
Proof.
  split; [by vm_compute|]. split; [by vm_compute|].
  intros s ra Hra.
  destruct (parseAction_Cut _ _ Hra) as (slashPath & Hcut & Hsl).
  apply parseAction_Some in Hra as (_ & _ & _ & _ & Horg & Hrepo & _ & Ho & Hr & _).
  exists slashPath. repeat split; try done.
  all: rewrite Contains_byte; apply negb_false_iff.
  all: by eapply allBytes_impl; [apply segment_no_slash|].
Qed.

Lemma bare_reference_fields_witness :
  ∃ slashPath,
    strings.Cut "org/repo/dir@v1@v2" "@" = Some ("org" +:+ "/" +:+ "repo" +:+ slashPath, "v1@v2")
    ∧ (slashPath = "" ∧ "dir" = "" ∨ slashPath = "/" +:+ "dir")
    ∧ "org" ≠ "" ∧ "repo" ≠ ""
    ∧ strings.Contains "org" "/" = false ∧ strings.Contains "repo" "/" = false.
Proof.
  apply (proj2 (proj2 bare_reference_fields) "org/repo/dir@v1@v2"
           {| remoteAction.URL := ""; remoteAction.Org := "org";
              remoteAction.Repo := "repo"; remoteAction.Path := "dir";
              remoteAction.Ref := "v1@v2" |}).
  vm_compute. reflexivity.
Defined.

End parser_claims.

(** ** Resolution: what happens around the clone *)
(** Membership of an event in a trace, case by case. *)
Ltac find_clone H :=
  repeat first
    [ apply elem_of_cons in H as [H|H]
    | apply elem_of_app in H as [H|H]
    | apply elem_of_nil in H; destruct H
    | discriminate H ].

Section resolution.
Context `{Collaborators}.

Lemma cloneToken_log cloneURL e :
  e ∈ (cloneToken cloneURL).2 → ∃ message, e = EvDebugf message.
Proof.
  unfold cloneToken. destruct (isActionOnGiteaInstance cloneURL); cbn [snd].
  - intros [->|?%elem_of_nil]%elem_of_cons; [by eexists|done].
  - by intros ?%elem_of_nil.
Qed.

(** A run of [prepareActionExecutor] that reaches the clone: the reference
    parsed, the checkout shortcut not taken, and then one of four endings
    according to the answer of the clone. *)
Lemma prepare_clone sar input :
  EvGitClone input ∈ trace (prepareActionExecutor sar) →
  let rc := stepActionRemote.RunContext sar in
  let uses := Interpolate rc (model.Uses (stepActionRemote.Step sar)) in
  let sar1 := stepActionRemote.set_remoteAction (newRemoteAction uses)
                (stepActionRemote.set_Step
                   (model.set_Uses uses (stepActionRemote.Step sar)) sar) in
  ∃ ra0,
    newRemoteAction uses = Some ra0
    ∧ skipsCheckout sar1 ra0 = false
    ∧ let ra := (replaceGhe (RunContext.Config rc) ra0 (getGithubContext sar1)).1 in
      let sar2 := stepActionRemote.set_remoteAction (Some ra) sar1 in
      let cloneURL :=
        remoteAction.CloneURL ra (Config.DefaultActionInstance (RunContext.Config rc)) in
      let actionDir := ActionCacheDir rc +:+ "/" +:+ safeFilename uses in
      let before :=
        EvInterpolate (model.Uses (stepActionRemote.Step sar))
          :: (cloneToken cloneURL).2 ++ [EvGitClone input] in
      let loaded := readAction (stepActionRemote.Step sar2) actionDir (remoteAction.Path ra) in
      input = {| git.URL := cloneURL; git.Ref := remoteAction.Ref ra;
                 git.Dir := actionDir; git.Token := (cloneToken cloneURL).1 |}
      ∧ prepareActionExecutor sar =
        match gitClone input with
        | Some (git.ErrShortRef commit) =>
            {| final := sar2; trace := before;
               outcome := returned (Some (Errorf
                 (shortRefMessage uses (remoteAction.Ref ra) commit))) |}
        | Some (git.ErrForceNeeded text) =>
            {| final := stepActionRemote.set_action loaded.1 sar2;
               trace := before ++
                 [EvInfof "Non-terminating error while running 'git clone': %v"
                          (git.ErrForceNeeded text);
                  EvReadAction actionDir (remoteAction.Path ra)];
               outcome := returned loaded.2 |}
        | Some (git.ErrOther text) =>
            {| final := sar2; trace := before;
               outcome := returned (Some (CloneError (git.ErrOther text))) |}
        | None =>
            {| final := stepActionRemote.set_action loaded.1 sar2;
               trace := before ++ [EvReadAction actionDir (remoteAction.Path ra)];
               outcome := returned loaded.2 |}
        end.
Proof.
  intros Hin rc uses sar1. revert Hin.
  unfold prepareActionExecutor.
  destruct (stepActionRemote.remoteAction sar) as [ra_old|] eqn:Hold,
           (stepActionRemote.action sar) as [a_old|] eqn:Haold.
  { cbn [trace]. by intros ?%elem_of_nil. }
  all: fold rc; fold uses; fold sar1.
  all: change (stepActionRemote.remoteAction sar1) with (newRemoteAction uses).
  all: destruct (newRemoteAction uses) as [ra0|] eqn:Hra0.
  all: try (cbn [trace]; intros [?|?%elem_of_nil]%elem_of_cons; done).
  all: destruct (skipsCheckout sar1 ra0) eqn:Hskip.
  all: try (cbn [trace]; intros [?|[?|?%elem_of_nil]%elem_of_cons]%elem_of_cons; done).
  all: intros Hin; exists ra0; split; [done|]; split; [done|]; revert Hin.
  all: destruct (replaceGhe (RunContext.Config rc) ra0 (getGithubContext sar1)) as [ra github].
  all: cbn [fst].
  all: change (model.Uses (stepActionRemote.Step
                 (stepActionRemote.set_remoteAction (Some ra) sar1))) with uses.
  all: pose proof (cloneToken_log
         (remoteAction.CloneURL ra (Config.DefaultActionInstance (RunContext.Config rc)))
         (EvGitClone input)) as Hlog.
  all: destruct (cloneToken _) as [token tokenLog]; cbn [fst snd] in *.
  all: match goal with
       | |- context [gitClone ?i] => set (input0 := i)
       end.
  all: unfold NewPipelineExecutor, NewPipelineExecutor_from, Then, NewInfoExecutor, loadAction.
  all: cbn [final trace outcome stepActionRemote.remoteAction
            stepActionRemote.set_remoteAction stepActionRemote.Step].
  all: destruct (readAction _ _ _) as [actionModel err].
  all: destruct (gitClone input0) as [[commit|text|text]|] eqn:Hclone.
  all: cbn [final trace outcome fst snd app].
  all: intros Hin.
  all: assert (input = input0) as ->
         by (find_clone Hin; first [by destruct (Hlog Hin) | by injection Hin]).
  all: split; [done|].
  all: rewrite Hclone.
  all: try done.
  all: by rewrite <- ?app_assoc.
Qed.

(** The token given to the clone is decided by a prefix test on the clone
    URL. *)
Lemma cloneToken_prefix cloneURL :
  (cloneToken cloneURL).1 =
  if strings.HasPrefix cloneURL (Getenv "GITEA_INSTANCE_URL")
  then Getenv "GITEA_RUNNER_TOKEN" else "".
Proof.
  unfold cloneToken, isActionOnGiteaInstance.
  by destruct (strings.HasPrefix cloneURL _).
Qed.

(** A reference whose base URL is the configured origin gets the token. *)
Lemma cloneToken_origin ra u :
  remoteAction.URL ra = Getenv "GITEA_INSTANCE_URL" →
  remoteAction.URL ra ≠ "" →
  (cloneToken (remoteAction.CloneURL ra u)).1 = Getenv "GITEA_RUNNER_TOKEN".
Proof.
  intros Hurl Hne. rewrite cloneToken_prefix. unfold remoteAction.CloneURL.
  destruct (String.eqb_spec (remoteAction.URL ra) "") as [|_]; [done|].
  by rewrite <- Hurl, HasPrefix_app.
Qed.

(** The reference that the loop over [ReplaceGheActionWithGithubCom] leaves
    does not depend on the github context it is run with. *)
Lemma replaceGhe_reference cfg ra github github' :
  (replaceGhe cfg ra github).1 = (replaceGhe cfg ra github').1.
Proof.
  unfold replaceGhe. revert ra github github'.
  induction (Config.ReplaceGheActionWithGithubCom cfg) as [|action l IH];
    intros ra github github'; [done|].
  cbn [foldl replaceGhe_step]. destruct (EqualFold _ action); apply IH.
Qed.

(** The loop writes the base URL of the reference and the token of the
    github context, and nothing else. *)
Lemma replaceGhe_frame cfg ra github :
  let rewritten := replaceGhe cfg ra github in
  remoteAction.Org rewritten.1 = remoteAction.Org ra
  ∧ remoteAction.Repo rewritten.1 = remoteAction.Repo ra
  ∧ remoteAction.Path rewritten.1 = remoteAction.Path ra
  ∧ remoteAction.Ref rewritten.1 = remoteAction.Ref ra
  ∧ model.Repository rewritten.2 = model.Repository github
  ∧ model.ActionRepository rewritten.2 = model.ActionRepository github
  ∧ model.ActionRef rewritten.2 = model.ActionRef github.
Proof.
  cbv zeta. unfold replaceGhe. revert ra github.
  induction (Config.ReplaceGheActionWithGithubCom cfg) as [|action l IH];
    intros ra github; [done|].
  cbn [foldl replaceGhe_step]. destruct (EqualFold _ action); [|apply IH].
  exact (IH (remoteAction.set_URL "https://github.com" ra)
            (model.set_Token (Config.ReplaceGheActionTokenWithGithubCom cfg) github)).
Qed.



(** The checkout shortcut is decided by the organisation, the repository
    and the ref of the reference: it is decided alike before and after the
    loop and the loading of the action definition. *)
Lemma skipsCheckout_reference sar ra ra' a :
  stepActionRemote.remoteAction sar = Some ra →
  remoteAction.Org ra' = remoteAction.Org ra →
  remoteAction.Repo ra' = remoteAction.Repo ra →
  remoteAction.Ref ra' = remoteAction.Ref ra →
  skipsCheckout
    (stepActionRemote.set_action a (stepActionRemote.set_remoteAction (Some ra') sar)) ra'
  = skipsCheckout sar ra.
Proof.
  intros Hra Horg Hrepo Href. unfold skipsCheckout, getGithubContext, remoteAction.IsCheckout.
  cbn [stepActionRemote.remoteAction stepActionRemote.set_action
       stepActionRemote.set_remoteAction stepActionRemote.RunContext
       stepActionRemote.Step].
  by rewrite Hra, Horg, Hrepo, Href.
Qed.

(** The checkout shortcut ends resolution before anything is cloned or
    read. *)
Lemma prepare_skips_checkout sar ra :
  (stepActionRemote.remoteAction sar = None ∨ stepActionRemote.action sar = None) →
  let rc := stepActionRemote.RunContext sar in
  let uses := Interpolate rc (model.Uses (stepActionRemote.Step sar)) in
  let sar1 := stepActionRemote.set_remoteAction (Some ra)
                (stepActionRemote.set_Step
                   (model.set_Uses uses (stepActionRemote.Step sar)) sar) in
  newRemoteAction uses = Some ra →
  skipsCheckout sar1 ra = true →
  prepareActionExecutor sar =
  {| final := sar1;
     trace := [EvInterpolate (model.Uses (stepActionRemote.Step sar));
               EvDebugf "Skipping local actions/checkout because workdir was already copied"];
     outcome := returned None |}.
Proof.
  intros Hunresolved rc uses sar1 Hra Hskip. unfold prepareActionExecutor.
  assert (match stepActionRemote.remoteAction sar, stepActionRemote.action sar with
          | Some _, Some _ => False
          | _, _ => True
          end) as Hcase.
  { destruct Hunresolved as [-> | ->]; [done|].
    by destruct (stepActionRemote.remoteAction sar). }
  destruct (stepActionRemote.remoteAction sar), (stepActionRemote.action sar);
    try done.
  all: fold rc; fold uses; rewrite Hra; fold sar1.
  all: change (stepActionRemote.remoteAction sar1) with (Some ra).
  all: cbn beta iota; by rewrite Hskip.
Qed.

End resolution.

(** ** The step: claims *)
Section step_claims.
Context `{Collaborators}.

(** C4. A clone that fails is handled in one of three ways.  A short ref is
    fatal: the error tells the caller to use the full commit SHA, and nothing
    is read.  A clone that would need force is not fatal: it is logged at the
    informational level and the action definition is read from what the
    cache directory holds.  Any other error is fatal and is returned as it
    is.  (A clone that succeeds goes on to read the definition.) *)
Theorem clone_failures_are_told_apart
    (sar : stepActionRemote.t) (input : git.NewGitCloneExecutorInput) :
  EvGitClone input ∈ trace (prepareActionExecutor sar) →
  let r := prepareActionExecutor sar in
  let reads ra (log : list event) :=
    (∃ before,
       trace r = before ++ EvGitClone input :: log
                   ++ [EvReadAction (git.Dir input) (remoteAction.Path ra)])
    ∧ stepActionRemote.action (final r) =
        (readAction (stepActionRemote.Step (final r)) (git.Dir input)
                    (remoteAction.Path ra)).1
    ∧ outcome r =
        returned (readAction (stepActionRemote.Step (final r)) (git.Dir input)
                             (remoteAction.Path ra)).2 in
  ∃ ra,
    stepActionRemote.remoteAction (final r) = Some ra
    ∧ match gitClone input with
      | Some (git.ErrShortRef commit) =>
          outcome r =
            returned (Some (Errorf
              ("Unable to resolve action `"
               +:+ model.Uses (stepActionRemote.Step (final r))
               +:+ "`, the provided ref `" +:+ git.Ref input
               +:+ "` is the shortened version of a commit SHA, which is not supported. Please use the full commit SHA `"
               +:+ commit +:+ "` instead")))
          ∧ ∀ dir path, EvReadAction dir path ∉ trace r
      | Some (git.ErrForceNeeded text) =>
          reads ra [EvInfof "Non-terminating error while running 'git clone': %v"
                            (git.ErrForceNeeded text)]
      | Some (git.ErrOther text) =>
          outcome r = returned (Some (CloneError (git.ErrOther text)))
          ∧ ∀ dir path, EvReadAction dir path ∉ trace r
      | None => reads ra []
      end.
Proof.
  intros Hin.
  destruct (prepare_clone sar input Hin) as (ra0 & Hra0 & Hskip & Hinput & Hrun).
  cbv zeta in *. rewrite Hrun. clear Hrun.
  set (ra := (replaceGhe _ ra0 _).1) in *.
  set (log := (cloneToken _).2) in *.
  assert (∀ e, e ∈ log → ∃ message, e = EvDebugf message) as Hlog
    by (intros e; apply cloneToken_log).
  exists ra.
  assert (git.Dir input = ActionCacheDir (stepActionRemote.RunContext sar) +:+ "/" +:+
            safeFilename (Interpolate (stepActionRemote.RunContext sar)
                                      (model.Uses (stepActionRemote.Step sar)))) as Hdir
    by (by rewrite Hinput).
  assert (git.Ref input = remoteAction.Ref ra) as Href by (by rewrite Hinput).
  destruct (gitClone input) as [[commit|text|text]|].
  all: cbn [final trace outcome stepActionRemote.remoteAction
            stepActionRemote.set_remoteAction stepActionRemote.set_action
            stepActionRemote.Step stepActionRemote.set_Step
            stepActionRemote.action model.Uses model.set_Uses].
  all: split; [done|].
  - split; [by rewrite Href|].
    intros dir path Hread. find_clone Hread. by destruct (Hlog _ Hread).
  - rewrite Hdir. split; [|done].
    exists (EvInterpolate (model.Uses (stepActionRemote.Step sar)) :: log).
    cbn [app]. by rewrite <- app_assoc.
  - split; [done|]. intros dir path Hread. find_clone Hread.
    by destruct (Hlog _ Hread).
  - rewrite Hdir. split; [|done].
    exists (EvInterpolate (model.Uses (stepActionRemote.Step sar)) :: log).
    cbn [app]. by rewrite <- app_assoc.
Qed.

(** C8. A step whose reference is parsed and whose action definition is
    loaded is resolved for good: running the resolution again returns nil at
    once, with no event and the step as it was, so that the main stage of
    such a step is the stage executor alone. *)
Theorem resolution_is_idempotent
    (sar : stepActionRemote.t) (ra : remoteAction.t) (a : model.Action) :
  stepActionRemote.remoteAction sar = Some ra →
  stepActionRemote.action sar = Some a →
  prepareActionExecutor sar = {| final := sar; trace := []; outcome := returned None |}
  ∧ main sar = runStepExecutor stepStageMain mainStep sar.
Proof.
  intros Hra Ha.
  assert (prepareActionExecutor sar =
          {| final := sar; trace := []; outcome := returned None |}) as Hprep.
  { unfold prepareActionExecutor. by rewrite Hra, Ha. }
  split; [done|].
  unfold main, NewPipelineExecutor, NewPipelineExecutor_from, Then.
  rewrite Hprep. cbn [final trace outcome app].
  by destruct (runStepExecutor stepStageMain mainStep sar).
Qed.

(** C2. The checkout action, and no other, is replaced when the caller has
    already put the working tree in place and the shortcut is not disabled:
    the condition of its pre stage is the constant [false], and its main
    stage interpolates the step's [path] input and copies the working
    directory into the container, or only logs a line when the working
    directory is bound.  In every other case (another reference, no working
    tree in place, or the shortcut disabled) the pre stage keeps the
    condition of its action and the main stage runs the action from the
    cache. *)
Theorem checkout_is_replaced (sar : stepActionRemote.t) (ra : remoteAction.t) :
  stepActionRemote.remoteAction sar = Some ra →
  let rc := stepActionRemote.RunContext sar in
  let cfg := RunContext.Config rc in
  (remoteAction.IsCheckout ra = true ↔
   remoteAction.Org ra = "actions" ∧ remoteAction.Repo ra = "checkout")
  ∧ (remoteAction.Org ra = "actions" → remoteAction.Repo ra = "checkout" →
     isLocalCheckout (getGithubContext sar) (stepActionRemote.Step sar) = true →
     Config.NoSkipCheckout cfg = false →
     getIfExpression sar stepStagePre = Some "false"
     ∧ mainStep sar =
       if Config.BindWorkdir cfg then
         {| final := sar;
            trace := [EvDebugf "Skipping local actions/checkout because you bound your workspace"];
            outcome := returned None |}
       else
         let withPath := default "" (model.With (stepActionRemote.Step sar) !! "path") in
         let copyToPath :=
           path_Join (ToContainerPath (Config.Workdir cfg)) (Interpolate rc withPath) in
         {| final := sar;
            trace := [EvInterpolate withPath;
                      EvCopyDir copyToPath (Config.Workdir cfg +:+ Separator +:+ ".")
                                (Config.UseGitIgnore cfg)];
            outcome := returned (CopyDir copyToPath (Config.Workdir cfg +:+ Separator +:+ ".")
                                         (Config.UseGitIgnore cfg)) |})
  ∧ (¬ (remoteAction.Org ra = "actions" ∧ remoteAction.Repo ra = "checkout")
     ∨ isLocalCheckout (getGithubContext sar) (stepActionRemote.Step sar) = false
     ∨ Config.NoSkipCheckout cfg = true →
     let actionDir :=
       ActionCacheDir rc +:+ "/" +:+ safeFilename (model.Uses (stepActionRemote.Step sar)) in
     getIfExpression sar stepStagePre =
       (model.PreIf ∘ model.Runs <$> stepActionRemote.action sar)
     ∧ mainStep sar =
       {| final := sar; trace := [EvRunAction actionDir ra];
          outcome := returned (runAction sar actionDir ra) |}).
Proof.
  intros Hra rc cfg.
  assert (remoteAction.IsCheckout ra = true ↔
          remoteAction.Org ra = "actions" ∧ remoteAction.Repo ra = "checkout") as Hck.
  { unfold remoteAction.IsCheckout.
    destruct (String.eqb_spec (remoteAction.Org ra) "actions") as [->|];
      destruct (String.eqb_spec (remoteAction.Repo ra) "checkout") as [->|];
      cbn [andb]; (split; [done|by intros [??]]). }
  split; [done|]. split.
  - intros Horg Hrepo Hlocal Hskip.
    assert (skipsCheckout sar ra = true) as Hsk.
    { unfold skipsCheckout. fold rc cfg.
      by rewrite (proj2 Hck (conj Horg Hrepo)), Hlocal, Hskip. }
    unfold getIfExpression, mainStep. fold rc cfg. rewrite Hra, Hsk.
    split; [done|]. by destruct (Config.BindWorkdir cfg).
  - intros Hother actionDir.
    assert (skipsCheckout sar ra = false) as Hsk.
    { unfold skipsCheckout. fold rc cfg.
      destruct Hother as [Hother|[-> | ->]].
      - destruct (remoteAction.IsCheckout ra); [|done].
        by destruct Hother; apply Hck.
      - apply andb_false_iff. left. apply andb_false_r.
      - apply andb_false_r. }
    unfold getIfExpression, mainStep. by rewrite Hra, Hsk.
Qed.



(** C7. The cache directory of a step is the cache root, a slash, and the
    step's "uses" string with each of the nine bytes less-than, greater-than,
    colon, double quote, slash, backslash, bar, question mark and star
    replaced by a hyphen and every other byte, [@] among them, left as it
    is.  The clone is given this directory; afterwards the main stage runs
    the action from the same directory, and the composite context, when it
    is built, is built for the path of the reference under it. *)
Theorem cache_directory_is_determined :
  (∀ s, String.length (safeFilename s) = String.length s
        ∧ ∀ i, String.get i (safeFilename s) =
               fmap (λ a, if bool_decide
                               (a ∈ ["<"; ">"; ":"; Ascii.ascii_of_nat 34; "/"; "\"; "|";
                                     "?"; "*"]%char)
                          then "-"%char else a)
                    (String.get i s))
  ∧ safeFilename "org/repo@v1" = "org-repo@v1"
  ∧ safeFilename ("<>:" +:+ String (Ascii.ascii_of_nat 34) "/\|?*@+") = "---------@+"
  ∧ ∀ sar input,
      EvGitClone input ∈ trace (prepareActionExecutor sar) →
      let rc := stepActionRemote.RunContext sar in
      let actionDir :=
        ActionCacheDir rc +:+ "/"
        +:+ safeFilename (Interpolate rc (model.Uses (stepActionRemote.Step sar))) in
      let sar' := final (prepareActionExecutor sar) in
      git.Dir input = actionDir
      ∧ ∃ ra,
          stepActionRemote.remoteAction sar' = Some ra
          ∧ mainStep sar' =
            {| final := sar'; trace := [EvRunAction actionDir ra];
               outcome := returned (runAction sar' actionDir ra) |}
          ∧ (stepActionRemote.compositeRunContext sar = None →
             (getCompositeRunContext sar').1.2 =
             [EvNewCompositeRunContext
                (getContainerActionPaths (stepActionRemote.Step sar')
                   (path_Join actionDir (remoteAction.Path ra)) rc).2;
              EvCompositeExecutor]).
Proof.
  split; [|split; [by vm_compute|split; [by vm_compute|]]].
  - intros s. unfold safeFilename. split.
    + induction s as [|a s IH]; [done|].
      cbn [strings.ReplaceBytes String.length]. by rewrite IH.
    + induction s as [|a s IH]; intros i; [done|].
      destruct i as [|i]; [done|]. apply IH.
  - intros sar input Hin rc actionDir sar'. subst sar'.
    destruct (prepare_clone sar input Hin) as (ra0 & Hra0 & Hskip & Hinput & Hrun).
    cbv zeta in *. fold rc in Hra0, Hskip, Hinput, Hrun. fold actionDir in Hinput, Hrun.
    split; [by rewrite Hinput|].
    rewrite Hrun. clear Hrun Hinput.
    match type of Hskip with
    | skipsCheckout ?s ra0 = false => set (sar1 := s) in *
    end.
    set (ra := (replaceGhe _ ra0 _).1).
    destruct (replaceGhe_frame (RunContext.Config rc) ra0 (getGithubContext sar1))
      as (Horg & Hrepo & _ & Href & _). fold ra in Horg, Hrepo, Href.
    assert (stepActionRemote.remoteAction sar1 = Some ra0) as Hsar1 by (by subst sar1).
    assert (∀ a, let sar' :=
              stepActionRemote.set_action a
                (stepActionRemote.set_remoteAction (Some ra) sar1) in
            mainStep sar' =
              {| final := sar'; trace := [EvRunAction actionDir ra];
                 outcome := returned (runAction sar' actionDir ra) |}
            ∧ (stepActionRemote.compositeRunContext sar = None →
               (getCompositeRunContext sar').1.2 =
               [EvNewCompositeRunContext
                  (getContainerActionPaths (stepActionRemote.Step sar')
                     (path_Join actionDir (remoteAction.Path ra)) rc).2;
                EvCompositeExecutor])) as Hall.
    { intros a sar'. split.
      - unfold mainStep.
        change (stepActionRemote.remoteAction sar') with (Some ra). cbn beta iota.
        unfold sar'.
        by rewrite (skipsCheckout_reference sar1 ra0 ra a Hsar1 Horg Hrepo Href), Hskip.
      - intros Hnone. unfold getCompositeRunContext.
        change (stepActionRemote.compositeRunContext sar')
          with (stepActionRemote.compositeRunContext sar).
        by rewrite Hnone. }
    exists ra.
    destruct (gitClone input) as [[commit|text|text]|]; cbn [final].
    2,4: split; [done|apply Hall].
    all: split; [done|apply (Hall (stepActionRemote.action sar))].
Qed.




End step_claims.

(** ** Worked examples *)
Section examples.

(** C1, on the code: with the trusted origin [https://gitea.example.com] and
    a runner token configured, an action on the host
    [gitea.example.com.evil.test], whose URL merely starts with the origin's,
    is cloned with the runner token; and when no origin is configured at
    all, every host is sent the token. *)
Lemma token_sent_beyond_origin :
  let C := exampleCollaborators giteaEnvironment false None in
  let r := @prepareActionExecutor C
             (newStep "https://gitea.example.com.evil.test/org/repo@v1") in
  let C' := exampleCollaborators {[ "GITEA_RUNNER_TOKEN" := "runner-secret" ]} false None in
  let r' := @prepareActionExecutor C' (newStep "https://elsewhere.test/org/repo@v1") in
  @Getenv C "GITEA_INSTANCE_URL" = "https://gitea.example.com"
  ∧ remoteAction.URL <$> stepActionRemote.remoteAction (final r)
    = Some "https://gitea.example.com.evil.test"
  ∧ trace r =
    [EvInterpolate "https://gitea.example.com.evil.test/org/repo@v1";
     EvDebugf "Adding GITEA_RUNNER_TOKEN as Token";
     EvGitClone
       {| git.URL := "https://gitea.example.com.evil.test/org/repo";
          git.Ref := "v1";
          git.Dir := "/cache/https---gitea.example.com.evil.test-org-repo@v1";
          git.Token := "runner-secret" |};
     EvReadAction "/cache/https---gitea.example.com.evil.test-org-repo@v1" ""]
  ∧ @Getenv C' "GITEA_INSTANCE_URL" = ""
  ∧ trace r' =
    [EvInterpolate "https://elsewhere.test/org/repo@v1";
     EvDebugf "Adding GITEA_RUNNER_TOKEN as Token";
     EvGitClone
       {| git.URL := "https://elsewhere.test/org/repo";
          git.Ref := "v1";
          git.Dir := "/cache/https---elsewhere.test-org-repo@v1";
          git.Token := "runner-secret" |};
     EvReadAction "/cache/https---elsewhere.test-org-repo@v1" ""].
Proof. by vm_compute. Qed.

Lemma checkout_is_replaced_witness :
  let C := exampleCollaborators giteaEnvironment true None in
  let sar := resolvedStep "actions/checkout@v4" checkoutReference None in
  let other := resolvedStep "org/repo/sub@v1" exampleReference (Some exampleAction) in
  (@getIfExpression C sar stepStagePre = Some "false"
   ∧ trace (@mainStep C sar) = [EvInterpolate ""; EvCopyDir "/work" "/work/." true])
  ∧ (@getIfExpression C other stepStagePre = Some "always()"
     ∧ trace (@mainStep C other) = [EvRunAction "/cache/org-repo-sub@v1" exampleReference]).
Proof.
  intros C sar other. split.
  - destruct (@checkout_is_replaced C sar checkoutReference eq_refl)
      as (_ & Hskip & _).
    destruct (Hskip eq_refl eq_refl eq_refl eq_refl) as [Hpre Hmain].
    split; [exact Hpre|]. rewrite Hmain. reflexivity.
  - destruct (@checkout_is_replaced C other exampleReference eq_refl)
      as (_ & _ & Hrun).
    destruct (Hrun (or_introl (λ H : "org" = "actions" ∧ "repo" = "checkout",
                                 match proj1 H with end)))
      as [Hpre Hmain].
    split; [exact Hpre|]. rewrite Hmain. reflexivity.
Defined.

Lemma clone_failures_are_told_apart_witness :
  let C := exampleCollaborators giteaEnvironment false
             (Some (git.ErrForceNeeded "some refs were not updated")) in
  let r := @prepareActionExecutor C (newStep "org/repo/sub@v1") in
  ∃ ra,
    stepActionRemote.remoteAction (final r) = Some ra
    ∧ (∃ before,
         trace r = before ++ EvGitClone exampleClone
           :: [EvInfof "Non-terminating error while running 'git clone': %v"
                       (git.ErrForceNeeded "some refs were not updated")]
           ++ [EvReadAction "/cache/org-repo-sub@v1" (remoteAction.Path ra)])
    ∧ stepActionRemote.action (final r) = Some exampleAction
    ∧ outcome r = returned None.
Proof.
  intros C r.
  destruct (@clone_failures_are_told_apart C (newStep "org/repo/sub@v1") exampleClone)
    as (ra & Hra & Hread & Haction & Houtcome).
  - vm_compute. do 2 apply list_elem_of_further. apply list_elem_of_here.
  - exists ra. split; [exact Hra|]. split; [exact Hread|].
    split; [exact Haction|exact Houtcome].
Defined.

Lemma cache_directory_is_determined_witness :
  let C := exampleCollaborators giteaEnvironment false None in
  let sar' := final (@prepareActionExecutor C (newStep "org/repo/sub@v1")) in
  git.Dir exampleClone = "/cache/org-repo-sub@v1"
  ∧ trace (@mainStep C sar') = [EvRunAction "/cache/org-repo-sub@v1" exampleReference]
  ∧ (@getCompositeRunContext C sar').1.2 =
    [EvNewCompositeRunContext "/cache/org-repo-sub@v1/sub"; EvCompositeExecutor].
Proof.
  intros C sar'.
  destruct (proj2 (proj2 (proj2 (@cache_directory_is_determined C)))
              (newStep "org/repo/sub@v1") exampleClone)
    as (Hdir & ra & Hra & Hmain & Hcomposite).
  - vm_compute. do 2 apply list_elem_of_further. apply list_elem_of_here.
  - assert (ra = exampleReference) as ->
      by (vm_compute in Hra; injection Hra as <-; reflexivity).
    split; [exact Hdir|]. split.
    + fold sar' in Hmain. rewrite Hmain. reflexivity.
    + exact (Hcomposite eq_refl).
Defined.

Lemma resolution_is_idempotent_witness :
  let C := exampleCollaborators giteaEnvironment false None in
  let sar := resolvedStep "org/repo/sub@v1" exampleReference (Some exampleAction) in
  @prepareActionExecutor C sar = {| final := sar; trace := []; outcome := returned None |}
  ∧ @main C sar = @runStepExecutor C stepStageMain (@mainStep C) sar.
Proof.
  intros C sar.
  exact (@resolution_is_idempotent C sar exampleReference exampleAction eq_refl eq_refl).
Defined.



End examples.

(** * Further properties of the code *)

(** Membership in the list of schemes. *)
Ltac in_schemas :=
  unfold schemas; repeat first [apply list_elem_of_here | apply list_elem_of_further].

(** ** The parser *)
Section parser_more.

(** Whatever [newRemoteAction] returns, the string is the base URL and a
    slash (or nothing, for a bare reference) followed by what [parseAction]
    was given. *)
Lemma newRemoteAction_shape s ra :
  newRemoteAction s = Some ra →
  ∃ rest ra0,
    parseAction rest = Some ra0
    ∧ ra = remoteAction.set_URL (remoteAction.URL ra) ra0
    ∧ (remoteAction.URL ra = "" ∧ s = rest
       ∧ strings.HasPrefix s "https://" = false ∧ strings.HasPrefix s "http://" = false
       ∨ ∃ schema host, schema ∈ schemas
           ∧ remoteAction.URL ra = schema +:+ host
           ∧ s = remoteAction.URL ra +:+ "/" +:+ rest).
Proof.
  destruct (strings.HasPrefix s "https://") eqn:H1;
    [|destruct (strings.HasPrefix s "http://") eqn:H2].
  3:{ rewrite newRemoteAction_bare by done. intros Hp. exists s, ra.
      pose proof (parseAction_Some _ _ Hp) as (_ & _ & _ & Hurl & _).
      split; [done|]. split; [by destruct ra|]. left. by rewrite Hurl. }
  all: match goal with
       | Hp : strings.HasPrefix _ ?schema = true |- _ =>
           apply HasPrefix_split in Hp as [x ->];
           rewrite (newRemoteAction_url schema) by (unfold schemas; in_schemas)
       end.
  all: destruct (hasAServicePrefix _).
  all: rewrite ?SplitN_3, ?SplitN_2.
  all: destruct (strings.Cut x "/") as [[h x']|] eqn:Hx; try done.
  all: rewrite ?SplitN_2.
  all: apply Cut_Some in Hx as [-> _].
  1,3: destruct (strings.Cut x' "/") as [[e r]|] eqn:Hx'; try done;
       apply Cut_Some in Hx' as [-> _].
  all: match goal with
       | |- _ <$> parseAction ?r = _ → _ =>
           destruct (parseAction r) as [ra0|] eqn:Hra0; [|done];
           intros [= <-]; exists r, ra0; split; [done|]; split; [done|]; right
       end.
  all: cbn [remoteAction.URL remoteAction.set_URL].
  all: match goal with
       | |- ∃ _ _, _ ∧ ?sch +:+ ?hst = _ ∧ _ => exists sch, hst
       end.
  all: split; [unfold schemas; in_schemas|].
  all: split; by rewrite ?append_assoc.
Qed.


(** [strings.Contains]: the needle occurs somewhere in the string. *)
Lemma Contains_spec s sub :
  strings.Contains s sub = true ↔ ∃ pre post, s = pre +:+ sub +:+ post.
Proof.
  split.
  - induction s as [|a s IH]; cbn [strings.Contains].
    + rewrite orb_false_r. intros [post ->]%HasPrefix_split. by exists "", post.
    + intros [[post ->]%HasPrefix_split|Hs]%orb_true_iff; [by exists "", post|].
      destruct (IH Hs) as (pre & post & ->). by exists (String a pre), post.
  - intros (pre & post & ->). induction pre as [|a pre IH].
    + rewrite append_nil_l.
      assert (∀ t, strings.Contains t sub =
                   strings.HasPrefix t sub
                   || match t with
                      | String _ t' => strings.Contains t' sub
                      | EmptyString => false
                      end) as -> by (by intros []).
      by rewrite HasPrefix_app.
    + rewrite append_cons. cbn [strings.Contains]. rewrite IH. apply orb_true_r.
Qed.

Lemma parseAction_one_segment repo ref :
  allBytes isSegmentByte repo = true →
  parseAction (repo +:+ "@" +:+ ref) = None.
Proof.
  intros Hrepo. rewrite parseAction_scan_eq. unfold scanAction.
  by rewrite (span_stop isSegmentByte repo _ Hrepo) by (by intros a y' [= <- _]).
Qed.

(** X1. Printing then parsing gives the parts back: a non-empty
    organisation and repository without [/] or [@], a path without [@] and a
    non-empty ref without newline, written [org/repo@ref] or
    [org/repo/path@ref], parse to exactly those parts with an empty base
    URL. *)
Theorem printed_reference_parses (org repo path ref : string) :
  org ≠ "" → repo ≠ "" → ref ≠ "" →
  allBytes isSegmentByte org = true →
  allBytes isSegmentByte repo = true →
  allBytes isPathByte path = true →
  allBytes isRefByte ref = true →
  parseAction (org +:+ "/" +:+ repo +:+ "@" +:+ ref) =
    Some {| remoteAction.URL := ""; remoteAction.Org := org; remoteAction.Repo := repo;
            remoteAction.Path := ""; remoteAction.Ref := ref |}
  ∧ parseAction (org +:+ "/" +:+ repo +:+ "/" +:+ path +:+ "@" +:+ ref) =
    Some {| remoteAction.URL := ""; remoteAction.Org := org; remoteAction.Repo := repo;
            remoteAction.Path := path; remoteAction.Ref := ref |}.
Proof.
  intros Horg Hrepo Href Ho Hr Hp Hf. split.
  - apply (parseAction_print org repo "" "" ref); auto.
  - pose proof (parseAction_print org repo ("/" +:+ path) path ref
                  Horg Hrepo Href Ho Hr Hp Hf (or_intror eq_refl)) as Hprint.
    by rewrite !append_assoc in Hprint.
Qed.



(** The two shapes of a parsed "uses" string. *)
Lemma parsed_reference_shape_url s ra :
  newRemoteAction s = Some ra →
  remoteAction.URL ra = ""
  ∨ ∃ schema host,
      schema ∈ schemas ∧ remoteAction.URL ra = schema +:+ host
      ∧ ∃ slashPath,
          s = remoteAction.URL ra +:+ "/" +:+ remoteAction.Org ra +:+ "/"
              +:+ remoteAction.Repo ra +:+ slashPath +:+ "@" +:+ remoteAction.Ref ra.
Proof.
  intros (rest & ra0 & Hp & Hra & Hurl)%newRemoteAction_shape.
  apply parseAction_Some in Hp as (slashPath & Hrest & _).
  destruct Hurl as [(? & _)|(schema & host & Hschema & Hu & ->)]; [by left|].
  right. exists schema, host. split; [done|]. split; [done|].
  exists slashPath. rewrite Hrest, Hra. by destruct ra0.
Qed.

(** X3. The fields of every reference that [newRemoteAction] returns: the
    organisation and the repository hold neither [/] nor [@], the path holds
    no [@], and the ref holds no newline.  So a bare reference whose text
    after its first [@] runs over a line end is rejected. *)
Theorem parsed_fields_are_clean (s : string) :
  (∀ ra, newRemoteAction s = Some ra →
         allBytes isSegmentByte (remoteAction.Org ra) = true
         ∧ allBytes isSegmentByte (remoteAction.Repo ra) = true
         ∧ strings.Contains (remoteAction.Path ra) "@" = false
         ∧ strings.Contains (remoteAction.Ref ra) (String regexp.newline "") = false)
  ∧ (∀ before after,
       strings.Cut s "@" = Some (before, after) →
       strings.Contains after (String regexp.newline "") = true →
       parseAction s = None).
Proof.
  split.
  - intros ra (rest & ra0 & Hp & -> & _)%newRemoteAction_shape.
    apply parseAction_Some in Hp as (_ & _ & _ & _ & _ & _ & _ & Ho & Hr & Hpa & Hre).
    cbn [remoteAction.set_URL remoteAction.Org remoteAction.Repo remoteAction.Path
         remoteAction.Ref].
    rewrite !Contains_byte. unfold isPathByte, isRefByte in *. by rewrite Ho, Hr, Hpa, Hre.
  - intros before after Hcut Hnl.
    destruct (parseAction s) as [ra|] eqn:Hp; [exfalso|done].
    pose proof (parseAction_Some _ _ Hp) as (_ & _ & _ & _ & _ & _ & _ & _ & _ & _ & Hre).
    apply parseAction_Cut in Hp as (slashPath & Hcut' & _).
    rewrite Hcut in Hcut'. injection Hcut' as _ ->.
    rewrite Contains_byte in Hnl. unfold isRefByte in Hre. by rewrite Hre in Hnl.
Qed.

Lemma parsed_fields_are_clean_witness :
  parseAction ("org/repo@v1" +:+ String regexp.newline "rm -rf") = None.
Proof.
  apply (proj2 (parsed_fields_are_clean _) "org/repo"
           ("v1" +:+ String regexp.newline "rm -rf")); reflexivity.
Defined.

(** X4. The clone URL of a parsed reference always starts with [https://]
    or [http://], whatever the default instance is; and for a reference that
    was written with a scheme it does not depend on the default instance at
    all: it is the base URL, the organisation and the repository, a prefix of
    the "uses" string itself. *)
Theorem clone_url_has_a_scheme (s : string) (ra : remoteAction.t) (u : string) :
  newRemoteAction s = Some ra →
  (strings.HasPrefix (remoteAction.CloneURL ra u) "https://" = true
   ∨ strings.HasPrefix (remoteAction.CloneURL ra u) "http://" = true)
  ∧ (remoteAction.URL ra ≠ "" →
     strings.HasPrefix s (remoteAction.CloneURL ra u) = true
     ∧ ∀ u', remoteAction.CloneURL ra u' = remoteAction.CloneURL ra u).
Proof.
  intros Hra.
  pose proof (parsed_reference_shape_url s ra Hra) as Hurl.
  unfold remoteAction.CloneURL.
  destruct (String.eqb_spec (remoteAction.URL ra) "") as [Hempty|Hne].
  - split; [|done].
    destruct (strings.HasPrefix u "http://") eqn:H1; cbn [negb andb].
    { right. by apply HasPrefix_split in H1 as [x ->]. }
    destruct (strings.HasPrefix u "https://") eqn:H2; cbn [negb andb].
    { left. by apply HasPrefix_split in H2 as [x ->]. }
    by left.
  - destruct Hurl as [?|(schema & host & Hschema & Hu & slashPath & Hs)]; [done|].
    split.
    + rewrite Hu, !append_assoc.
      apply elem_of_cons in Hschema as [->|Hschema]; [by left|].
      apply list_elem_of_singleton in Hschema as ->. by right.
    + intros _. split; [|done].
      rewrite Hs at 1.
      replace (remoteAction.URL ra +:+ "/" +:+ remoteAction.Org ra +:+ "/"
               +:+ remoteAction.Repo ra +:+ slashPath +:+ "@" +:+ remoteAction.Ref ra)
        with ((remoteAction.URL ra +:+ "/" +:+ remoteAction.Org ra +:+ "/"
               +:+ remoteAction.Repo ra) +:+ slashPath +:+ "@" +:+ remoteAction.Ref ra)
        by (by rewrite !append_assoc).
      apply HasPrefix_app.
Qed.


(** X5. The service-prefix test is a substring test on the whole "uses"
    string.  So a reference [scheme://host/org/repo@ref] on any host is
    rejected as soon as the marker [internal-git.juegostudio.net/git] occurs
    anywhere in it, in the ref for instance: the organisation is taken for
    the extra segment and too little is left to parse. *)
Theorem service_marker_anywhere (schema host org repo ref : string) :
  schema ∈ schemas →
  strings.Contains host "/" = false →
  strings.Contains org "/" = false →
  allBytes isSegmentByte repo = true →
  let s := schema +:+ host +:+ "/" +:+ org +:+ "/" +:+ repo +:+ "@" +:+ ref in
  (hasAServicePrefix s = true ↔
   ∃ pre post, s = pre +:+ "internal-git.juegostudio.net/git" +:+ post)
  ∧ (hasAServicePrefix s = true → newRemoteAction s = None).
Proof.
  intros Hschema Hhost Horg Hrepo s. split.
  - unfold hasAServicePrefix, isJuegoInternalServerPrefix.
    rewrite <- Contains_spec. by destruct (strings.Contains s _).
  - intros Hsvc. subst s. rewrite newRemoteAction_url, Hsvc by done.
    rewrite Contains_byte in Hhost, Horg.
    apply negb_false_iff in Hhost, Horg.
    change (host +:+ "/" +:+ org +:+ "/" +:+ repo +:+ "@" +:+ ref)
      with (host +:+ String "/" (org +:+ String "/" (repo +:+ "@" +:+ ref))).
    rewrite SplitN_3, (Cut_app host "/" _ Hhost), SplitN_2.
    rewrite (Cut_app org "/" _ Horg).
    by rewrite parseAction_one_segment.
Qed.

Lemma service_marker_anywhere_witness :
  newRemoteAction
    "https://example.com/org/repo@internal-git.juegostudio.net/git" = None.
Proof.
  apply (proj2 (service_marker_anywhere "https://" "example.com" "org" "repo"
                  "internal-git.juegostudio.net/git"
                  ltac:(in_schemas) eq_refl eq_refl eq_refl)).
  reflexivity.
Defined.

(** X21. Only the two schemes are recognised.  A string with a doubled slash
    after a first segment, as in [ssh://host/org/repo@v1] or with the scheme
    in capitals, is not a reference: the repository would be empty. *)
Theorem other_schemes_are_rejected (x y : string) :
  strings.Contains x "/" = false →
  strings.HasPrefix (x +:+ "//" +:+ y) "https://" = false →
  strings.HasPrefix (x +:+ "//" +:+ y) "http://" = false →
  newRemoteAction (x +:+ "//" +:+ y) = None.
Proof.
  intros Hx H1 H2. rewrite newRemoteAction_bare by done.
  destruct (parseAction _) as [ra|] eqn:Hp; [exfalso|done].
  apply parseAction_Some in Hp as (slashPath & Hs & _ & _ & _ & Hne & _ & Ho & Hr & _).
  rewrite Contains_byte in Hx. apply negb_false_iff in Hx.
  pose proof (Cut_app x "/" ("/" +:+ y) Hx) as Hcut.
  change (x +:+ String "/" ("/" +:+ y)) with (x +:+ "//" +:+ y) in Hcut.
  rewrite Hs in Hcut.
  change (remoteAction.Org ra +:+ "/" +:+ remoteAction.Repo ra +:+ slashPath
          +:+ "@" +:+ remoteAction.Ref ra)
    with (remoteAction.Org ra +:+ String "/" (remoteAction.Repo ra +:+ slashPath
          +:+ "@" +:+ remoteAction.Ref ra)) in Hcut.
  rewrite (Cut_app (remoteAction.Org ra) "/" _
             (allBytes_impl _ _ _ segment_no_slash Ho)) in Hcut.
  injection Hcut as _ Hrest.
  destruct (remoteAction.Repo ra) as [|a repo]; [done|].
  rewrite append_cons in Hrest. injection Hrest as -> _.
  cbn [allBytes] in Hr. by vm_compute in Hr.
Qed.

Lemma other_schemes_are_rejected_witness :
  newRemoteAction "ssh://git.example.com/org/repo@v1" = None
  ∧ newRemoteAction "HTTPS://example.com/org/repo@v1" = None.
Proof.
  split.
  - apply (other_schemes_are_rejected "ssh:" "git.example.com/org/repo@v1");
      reflexivity.
  - apply (other_schemes_are_rejected "HTTPS:" "example.com/org/repo@v1");
      reflexivity.
Defined.

End parser_more.

(** ** Cache directory names *)
Section cache_names.

Lemma length_append a b :
  String.length (a +:+ b) = String.length a + String.length b.
Proof. induction a as [|c a IH]; [done|]. rewrite append_cons. cbn. by rewrite IH. Qed.

Lemma safeFilename_app a b :
  safeFilename (a +:+ b) = safeFilename a +:+ safeFilename b.
Proof.
  unfold safeFilename. induction a as [|c a IH]; [done|].
  rewrite append_cons. cbn [strings.ReplaceBytes]. by rewrite IH.
Qed.

Lemma safeFilename_safe s :
  allBytes (λ a, negb (bool_decide (a ∈ unsafeChars))) s = true →
  safeFilename s = s.
Proof.
  unfold safeFilename. induction s as [|a s IH]; [done|]. cbn [allBytes].
  intros [Ha Hs]%andb_true_iff. cbn [strings.ReplaceBytes].
  rewrite (IH Hs). by destruct (bool_decide (a ∈ unsafeChars)).
Qed.

(** X6. A cache directory name holds none of the nine unsafe bytes, so that
    it names one directory level; a string that holds none of them is its
    own name; and naming is idempotent and goes through concatenation. *)
Theorem safeFilename_is_flat (s t : string) :
  allBytes (λ a, negb (bool_decide (a ∈ unsafeChars))) (safeFilename s) = true
  ∧ strings.Contains (safeFilename s) "/" = false
  ∧ (allBytes (λ a, negb (bool_decide (a ∈ unsafeChars))) s = true →
     safeFilename s = s)
  ∧ safeFilename (safeFilename s) = safeFilename s
  ∧ safeFilename (s +:+ t) = safeFilename s +:+ safeFilename t.
Proof.
  assert (allBytes (λ a, negb (bool_decide (a ∈ unsafeChars))) (safeFilename s) = true)
    as Hflat.
  { unfold safeFilename. induction s as [|a s IH]; [done|].
    cbn [strings.ReplaceBytes allBytes]. rewrite IH, andb_true_r.
    destruct (bool_decide (a ∈ unsafeChars)) eqn:Ha; [by vm_compute|by rewrite Ha]. }
  split; [done|]. split; [|split; [apply safeFilename_safe|split]].
  - rewrite Contains_byte. apply negb_false_iff.
    eapply allBytes_impl; [|exact Hflat].
    intros a Ha. destruct (Ascii.eqb_spec a "/") as [->|]; [|done].
    by vm_compute in Ha.
  - by apply safeFilename_safe.
  - apply safeFilename_app.
Qed.

Lemma safeFilename_is_flat_witness :
  safeFilename "v1.2-rc_3@main" = "v1.2-rc_3@main".
Proof.
  apply (proj1 (proj2 (proj2 (safeFilename_is_flat "v1.2-rc_3@main" "")))).
  reflexivity.
Defined.

(** X7. Distinct references can share a cache directory: with a hyphen for
    the slash in one place and a slash for the hyphen in another, the bare
    references [x/y-z@ref] and [x-y/z@ref] both parse, name different
    organisations, and get the same directory name. *)
Theorem cache_names_collide (x y z ref : string) :
  x ≠ "" → y ≠ "" → z ≠ "" → ref ≠ "" →
  allBytes isSegmentByte x = true →
  allBytes isSegmentByte y = true →
  allBytes isSegmentByte z = true →
  allBytes isRefByte ref = true →
  let one := x +:+ "/" +:+ y +:+ "-" +:+ z +:+ "@" +:+ ref in
  let other := x +:+ "-" +:+ y +:+ "/" +:+ z +:+ "@" +:+ ref in
  (∃ ra ra', parseAction one = Some ra ∧ parseAction other = Some ra'
             ∧ remoteAction.Org ra = x ∧ remoteAction.Org ra' = x +:+ "-" +:+ y
             ∧ remoteAction.Org ra ≠ remoteAction.Org ra')
  ∧ one ≠ other
  ∧ safeFilename one = safeFilename other.
Proof.
  intros Hx Hy Hz Href Hsx Hsy Hsz Hsr one other.
  assert (x ≠ x +:+ "-" +:+ y) as Hne.
  { intros Heq. apply (f_equal String.length) in Heq.
    rewrite !length_append in Heq. cbn in Heq. lia. }
  split; [|split].
  - eexists _, _.
    split; [|split; [|split; [|split]]].
    + subst one.
      replace (x +:+ "/" +:+ y +:+ "-" +:+ z +:+ "@" +:+ ref)
        with (x +:+ "/" +:+ (y +:+ "-" +:+ z) +:+ "" +:+ "@" +:+ ref)
        by (by rewrite !append_assoc).
      apply (parseAction_print x (y +:+ "-" +:+ z) "" "" ref);
        [done| |done|done| |done|done|by left].
      * by destruct y.
      * by rewrite !allBytes_app, Hsy, Hsz.
    + subst other.
      replace (x +:+ "-" +:+ y +:+ "/" +:+ z +:+ "@" +:+ ref)
        with ((x +:+ "-" +:+ y) +:+ "/" +:+ z +:+ "" +:+ "@" +:+ ref)
        by (by rewrite !append_assoc).
      apply (parseAction_print (x +:+ "-" +:+ y) z "" "" ref);
        [ |done|done| |done|done|done|by left].
      * by destruct x.
      * by rewrite !allBytes_app, Hsx, Hsy.
    + done.
    + done.
    + done.
  - subst one other. intros Heq. apply String.app_inj in Heq.
    destruct y; [done|]. discriminate Heq.
  - subst one other. rewrite !safeFilename_app. reflexivity.
Qed.

End cache_names.

(** ** Resolution as a whole *)
Section resolution_more.
Context `{Collaborators}.

(** The four ways a run of [prepareActionExecutor] can go. *)
Lemma prepare_cases sar :
  let rc := stepActionRemote.RunContext sar in
  let raw := model.Uses (stepActionRemote.Step sar) in
  let uses := Interpolate rc raw in
  let sar1 := stepActionRemote.set_remoteAction (newRemoteAction uses)
                (stepActionRemote.set_Step
                   (model.set_Uses uses (stepActionRemote.Step sar)) sar) in
  (∃ ra a, stepActionRemote.remoteAction sar = Some ra
           ∧ stepActionRemote.action sar = Some a
           ∧ prepareActionExecutor sar =
             {| final := sar; trace := []; outcome := returned None |})
  ∨ ((stepActionRemote.remoteAction sar = None ∨ stepActionRemote.action sar = None)
     ∧ ((newRemoteAction uses = None
         ∧ prepareActionExecutor sar =
           {| final := sar1; trace := [EvInterpolate raw];
              outcome := returned (Some (Errorf (formatMessage uses))) |})
        ∨ (∃ ra0, newRemoteAction uses = Some ra0
                  ∧ skipsCheckout sar1 ra0 = true
                  ∧ prepareActionExecutor sar =
                    {| final := sar1;
                       trace := [EvInterpolate raw;
                                 EvDebugf "Skipping local actions/checkout because workdir was already copied"];
                       outcome := returned None |})
        ∨ (∃ input, EvGitClone input ∈ trace (prepareActionExecutor sar)))).
Proof.
  intros rc raw uses sar1.
  destruct (stepActionRemote.remoteAction sar) as [ra_old|] eqn:Hold;
    destruct (stepActionRemote.action sar) as [a_old|] eqn:Haold.
  { left. exists ra_old, a_old. unfold prepareActionExecutor. by rewrite Hold, ?Haold. }
  all: right; split; [auto|].
  all: destruct (newRemoteAction uses) as [ra0|] eqn:Hra0.
  2,4,6: left; split; [done|]; unfold prepareActionExecutor; rewrite Hold, ?Haold;
          fold rc raw uses; subst sar1; rewrite Hra0; reflexivity.
  all: right.
  all: destruct (skipsCheckout sar1 ra0) eqn:Hskip.
  all: try (left; exists ra0; split; [done|]; split; [done|];
            apply (prepare_skips_checkout sar ra0); auto; fail).
  all: right.
  all: unfold prepareActionExecutor; rewrite Hold, ?Haold.
  all: fold rc raw uses; rewrite Hra0; fold sar1.
  all: change (stepActionRemote.remoteAction sar1) with (Some ra0); cbn beta iota.
  all: rewrite Hskip.
  all: destruct (replaceGhe _ _ _) as [ra github].
  all: destruct (cloneToken _) as [token tokenLog].
  all: match goal with
       | |- context [gitClone ?i] =>
           exists i;
           assert (EvGitClone i ∈ EvInterpolate raw :: tokenLog ++ [EvGitClone i]) as Hb
             by (apply list_elem_of_further, elem_of_app; right; apply list_elem_of_here);
           destruct (gitClone i) as [[]|]
       end.
  all: cbn [trace].
  all: first [exact Hb | apply elem_of_app; left; exact Hb].
Qed.


Lemma resolution_never_fails_to_set_reference sar :
  outcome (prepareActionExecutor sar) = returned None →
  ∃ ra, stepActionRemote.remoteAction (final (prepareActionExecutor sar)) = Some ra.
Proof.
  destruct (prepare_cases sar) as [(ra & a & Hra & Ha & ->)|[_ Hcases]].
  { intros _. by exists ra. }
  cbv zeta in Hcases.
  destruct Hcases as [[_ ->]|[(ra0 & Hra0 & _ & ->)|[input Hin]]]; [done| |].
  - intros _. exists ra0.
    cbn [final stepActionRemote.remoteAction stepActionRemote.set_remoteAction].
    by rewrite Hra0.
  - destruct (prepare_clone sar input Hin) as (ra0 & _ & _ & _ & ->). cbv zeta.
    intros _. destruct (gitClone input) as [[]|]; by eexists.
Qed.

(** X8. The token of a clone, as the code decides it: the runner token of
    the environment when the clone URL starts with [GITEA_INSTANCE_URL], and
    the empty string otherwise; the token of the github context and the
    replacement token of the configuration are never passed on.  With the
    origin unset every clone is given the runner token, and a reference
    whose base URL is the origin always is. *)
Theorem clone_token_follows_prefix
    (sar : stepActionRemote.t) (input : git.NewGitCloneExecutorInput) :
  EvGitClone input ∈ trace (prepareActionExecutor sar) →
  git.Token input =
    (if strings.HasPrefix (git.URL input) (Getenv "GITEA_INSTANCE_URL")
     then Getenv "GITEA_RUNNER_TOKEN" else "")
  ∧ (Getenv "GITEA_INSTANCE_URL" = "" → git.Token input = Getenv "GITEA_RUNNER_TOKEN")
  ∧ (∀ ra, stepActionRemote.remoteAction (final (prepareActionExecutor sar)) = Some ra →
           remoteAction.URL ra ≠ "" →
           remoteAction.URL ra = Getenv "GITEA_INSTANCE_URL" →
           git.Token input = Getenv "GITEA_RUNNER_TOKEN").
Proof.
  intros Hin.
  destruct (prepare_clone sar input Hin) as (ra0 & Hra0 & Hskip & Hinput & Hrun).
  cbv zeta in *. set (ra := (replaceGhe _ ra0 _).1) in *.
  assert (git.Token input =
          if strings.HasPrefix (git.URL input) (Getenv "GITEA_INSTANCE_URL")
          then Getenv "GITEA_RUNNER_TOKEN" else "") as Htoken.
  { rewrite Hinput. cbn [git.Token git.URL]. apply cloneToken_prefix. }
  split; [done|]. split.
  - intros Hunset. rewrite Htoken, Hunset. by destruct (git.URL input).
  - intros ra' Hra' Hne Horigin.
    assert (ra' = ra) as ->.
    { rewrite Hrun in Hra'. destruct (gitClone input) as [[]|];
        cbn in Hra'; congruence. }
    rewrite Hinput. cbn [git.Token]. by apply cloneToken_origin.
Qed.

(** X9. A "uses" string that does not parse ends the resolution at once:
    the error carries the format message with the string as interpolated,
    that string has replaced the step's, the reference is nil, and nothing
    was cloned or read. *)
Theorem unparsable_uses_fails_early (sar : stepActionRemote.t) :
  stepActionRemote.remoteAction sar = None ∨ stepActionRemote.action sar = None →
  let uses := Interpolate (stepActionRemote.RunContext sar)
                          (model.Uses (stepActionRemote.Step sar)) in
  newRemoteAction uses = None →
  let r := prepareActionExecutor sar in
  outcome r =
    returned (Some (Errorf ("Expected format {org}/{repo}[/path]@ref. Actual '"
                            +:+ uses +:+ "' Input string was not in a correct format")))
  ∧ trace r = [EvInterpolate (model.Uses (stepActionRemote.Step sar))]
  ∧ stepActionRemote.remoteAction (final r) = None
  ∧ model.Uses (stepActionRemote.Step (final r)) = uses
  ∧ stepActionRemote.action (final r) = stepActionRemote.action sar.
Proof.
  intros Hunresolved uses Hnone r. subst r uses.
  destruct (prepare_cases sar) as [(ra & a & Hra & Ha & _)|[_ Hcases]].
  { destruct Hunresolved; congruence. }
  cbv zeta in Hcases.
  destruct Hcases as [[_ ->]|[(ra0 & Hra0 & _)|[input Hin]]]; [|congruence|].
  - cbn [outcome trace final stepActionRemote.remoteAction stepActionRemote.action
         stepActionRemote.Step stepActionRemote.set_remoteAction
         stepActionRemote.set_Step model.Uses model.set_Uses].
    by rewrite Hnone.
  - destruct (prepare_clone sar input Hin) as (ra0 & Hra0 & _). cbv zeta in Hra0.
    congruence.
Qed.

(** X10. Resolution never panics; and when it returns nil the reference is
    set, so that the main stage function run next does not panic either. *)
Theorem resolution_never_panics (sar : stepActionRemote.t) :
  let r := prepareActionExecutor sar in
  outcome r ≠ panicked
  ∧ (outcome r = returned None →
     (∃ ra, stepActionRemote.remoteAction (final r) = Some ra)
     ∧ outcome (mainStep (final r)) ≠ panicked).
Proof.
  intros r. subst r.
  assert (∀ sar', (∃ ra, stepActionRemote.remoteAction sar' = Some ra) →
                  outcome (mainStep sar') ≠ panicked) as Hmain.
  { intros sar' [ra Hra]. unfold mainStep. rewrite Hra.
    destruct (skipsCheckout sar' ra); [destruct (Config.BindWorkdir _)|]; done. }
  destruct (prepare_cases sar) as [(ra & a & Hra & Ha & ->)|[_ Hcases]].
  { split; [done|]. intros _. split; [by exists ra|]. apply Hmain. by exists ra. }
  cbv zeta in Hcases.
  destruct Hcases as [[_ ->]|[(ra0 & Hra0 & _ & ->)|[input Hin]]].
  - done.
  - split; [done|]. intros _. cbn [final].
    assert (∃ ra, stepActionRemote.remoteAction
                    (stepActionRemote.set_remoteAction
                       (newRemoteAction (Interpolate (stepActionRemote.RunContext sar)
                                           (model.Uses (stepActionRemote.Step sar))))
                       (stepActionRemote.set_Step
                          (model.set_Uses
                             (Interpolate (stepActionRemote.RunContext sar)
                                (model.Uses (stepActionRemote.Step sar)))
                             (stepActionRemote.Step sar)) sar)) = Some ra) as Hset
      by (exists ra0; by rewrite Hra0).
    split; [done|by apply Hmain].
  - destruct (prepare_clone sar input Hin) as (ra0 & _ & _ & _ & ->). cbv zeta.
    destruct (gitClone input) as [[]|]; cbn [outcome final].
    all: split; [done|]; intros Hnil; try done.
    all: match goal with
         | |- (∃ ra, stepActionRemote.remoteAction ?s = _) ∧ _ =>
             assert (∃ ra, stepActionRemote.remoteAction s = Some ra) as Hset
               by (by eexists)
         end.
    all: split; [done|by apply Hmain].
Qed.

(** X11. What resolution leaves alone: the run context, the composite
    context and its steps, the step's environment, and of the step model the
    condition and the inputs.  The "uses" string is the only part of the
    model it writes: it is replaced by its interpolation, unless the step was
    already resolved. *)
Theorem resolution_frame (sar : stepActionRemote.t) :
  let sar' := final (prepareActionExecutor sar) in
  stepActionRemote.RunContext sar' = stepActionRemote.RunContext sar
  ∧ stepActionRemote.compositeRunContext sar' = stepActionRemote.compositeRunContext sar
  ∧ stepActionRemote.compositeSteps sar' = stepActionRemote.compositeSteps sar
  ∧ stepActionRemote.env sar' = stepActionRemote.env sar
  ∧ model.If_Value (stepActionRemote.Step sar') = model.If_Value (stepActionRemote.Step sar)
  ∧ model.With (stepActionRemote.Step sar') = model.With (stepActionRemote.Step sar)
  ∧ model.Uses (stepActionRemote.Step sar') =
    match stepActionRemote.remoteAction sar, stepActionRemote.action sar with
    | Some _, Some _ => model.Uses (stepActionRemote.Step sar)
    | _, _ => Interpolate (stepActionRemote.RunContext sar)
                          (model.Uses (stepActionRemote.Step sar))
    end.
Proof.
  cbv zeta.
  destruct (prepare_cases sar) as [(ra & a & Hra & Ha & ->)|[Hunresolved Hcases]].
  { by rewrite Hra, Ha. }
  assert (match stepActionRemote.remoteAction sar, stepActionRemote.action sar with
          | Some _, Some _ => model.Uses (stepActionRemote.Step sar)
          | _, _ => Interpolate (stepActionRemote.RunContext sar)
                                (model.Uses (stepActionRemote.Step sar))
          end = Interpolate (stepActionRemote.RunContext sar)
                            (model.Uses (stepActionRemote.Step sar))) as ->.
  { destruct Hunresolved as [-> | ->]; [done|].
    by destruct (stepActionRemote.remoteAction sar). }
  cbv zeta in Hcases.
  destruct Hcases as [[_ ->]|[(ra0 & _ & _ & ->)|[input Hin]]]; [done|done|].
  destruct (prepare_clone sar input Hin) as (ra0 & _ & _ & _ & ->). cbv zeta.
  by destruct (gitClone input) as [[]|].
Qed.


(** X12. The events of a resolution, in order.  A resolution that clones
    clones once: before the clone it only interpolates and logs, and after
    the clone it either stops or, having logged at most informational lines,
    reads the action definition, once and as its last event, from the
    directory that was cloned into and at the path of the reference.  A
    resolution that does not clone reads nothing.  Resolution never copies a
    directory, runs an action or touches the composite context. *)
Theorem resolution_reads_what_it_cloned (sar : stepActionRemote.t) :
  let r := prepareActionExecutor sar in
  let quiet (e : event) : Prop :=
    match e with
    | EvInterpolate _ | EvDebugf _ | EvInfof _ _ => True
    | _ => False
    end in
  (∀ input,
     EvGitClone input ∈ trace r →
     ∃ before after ra,
       trace r = before ++ EvGitClone input :: after
       ∧ Forall quiet before
       ∧ stepActionRemote.remoteAction (final r) = Some ra
       ∧ git.Ref input = remoteAction.Ref ra
       ∧ (after = []
          ∨ ∃ log,
              after = log ++ [EvReadAction (git.Dir input) (remoteAction.Path ra)]
              ∧ Forall quiet log))
  ∧ ((∀ input, EvGitClone input ∉ trace r) → Forall quiet (trace r)).
Proof.
  intros r quiet. subst r. split.
  - intros input Hin.
    destruct (prepare_clone sar input Hin) as (ra0 & _ & _ & Hinput & Hrun).
    cbv zeta in *. set (ra := (replaceGhe _ ra0 _).1) in *.
    assert (Forall quiet
              (EvInterpolate (model.Uses (stepActionRemote.Step sar))
               :: (cloneToken (remoteAction.CloneURL ra
                     (Config.DefaultActionInstance
                        (RunContext.Config (stepActionRemote.RunContext sar))))).2))
      as Hbefore.
    { apply Forall_cons. split; [done|]. apply Forall_forall. intros e He.
      by destruct (cloneToken_log _ e He) as [message ->]. }
    assert (git.Dir input = ActionCacheDir (stepActionRemote.RunContext sar) +:+ "/" +:+
              safeFilename (Interpolate (stepActionRemote.RunContext sar)
                                        (model.Uses (stepActionRemote.Step sar)))) as Hdir
      by (by rewrite Hinput).
    assert (git.Ref input = remoteAction.Ref ra) as Href by (by rewrite Hinput).
    rewrite Hrun. clear Hrun Hinput.
    rewrite Hdir.
    destruct (gitClone input) as [[commit|text|text]|]; cbn [trace final app].
    all: rewrite <- ?app_assoc; cbn [app].
    all: eexists (EvInterpolate _ :: _), _, ra.
    all: split; [reflexivity|].
    all: split; [exact Hbefore|]; split; [done|]; split; [done|].
    + by left.
    + right. eexists [_]. split; [reflexivity|]. by apply Forall_singleton.
    + by left.
    + right. exists []. by split.
  - intros Hnone.
    destruct (prepare_cases sar) as [(ra & a & Hra & Ha & ->)|[_ Hcases]];
      [by apply Forall_nil|].
    cbv zeta in Hcases.
    destruct Hcases as [[_ ->]|[(ra0 & _ & _ & ->)|[input Hin]]].
    + by apply Forall_singleton.
    + cbn [trace]. by repeat apply Forall_cons_2.
    + by destruct (Hnone input).
Qed.

(** X13. Resolution completes once: after a run that returned nil and left
    an action definition loaded, running it again changes nothing and has no
    effect. *)
Theorem resolved_once_stays_resolved (sar : stepActionRemote.t) (a : model.Action) :
  outcome (prepareActionExecutor sar) = returned None →
  stepActionRemote.action (final (prepareActionExecutor sar)) = Some a →
  prepareActionExecutor (final (prepareActionExecutor sar)) =
  {| final := final (prepareActionExecutor sar); trace := []; outcome := returned None |}.
Proof.
  intros Hnil Ha.
  destruct (resolution_never_fails_to_set_reference sar Hnil) as [ra Hra].
  unfold prepareActionExecutor at 1. by rewrite Hra, Ha.
Qed.

(** X14. The checkout shortcut never completes a resolution: it returns
    before an action definition is loaded, so the next stage resolves again,
    and interpolates the already interpolated "uses" string once more. *)
Theorem checkout_shortcut_resolves_again (sar : stepActionRemote.t) (ra : remoteAction.t) :
  stepActionRemote.action sar = None →
  let rc := stepActionRemote.RunContext sar in
  let uses := Interpolate rc (model.Uses (stepActionRemote.Step sar)) in
  let sar1 := final (prepareActionExecutor sar) in
  newRemoteAction uses = Some ra →
  skipsCheckout
    (stepActionRemote.set_remoteAction (Some ra)
       (stepActionRemote.set_Step (model.set_Uses uses (stepActionRemote.Step sar)) sar))
    ra = true →
  stepActionRemote.action sar1 = None
  ∧ (∃ events, trace (prepareActionExecutor sar1) = EvInterpolate uses :: events)
  ∧ model.Uses (stepActionRemote.Step (final (prepareActionExecutor sar1))) =
    Interpolate rc uses.
Proof.
  intros Haction rc uses sar1 Hra Hskip. subst sar1.
  rewrite (prepare_skips_checkout sar ra) by auto. cbn [final].
  fold rc uses.
  set (sar1 := stepActionRemote.set_remoteAction (Some ra) _) in *.
  assert (stepActionRemote.action sar1 = None) as Ha1 by done.
  split; [done|].
  destruct (prepare_cases sar1) as [(? & ? & _ & ? & _)|[_ Hcases]]; [congruence|].
  cbv zeta in Hcases.
  destruct Hcases as [[_ ->]|[(ra0 & _ & _ & ->)|[input Hin]]];
    [by split; [eexists|]|by split; [eexists|]|].
  destruct (prepare_clone sar1 input Hin) as (ra0 & _ & _ & _ & ->). cbv zeta.
  destruct (gitClone input) as [[]|]; by split; [eexists|].
Qed.

(** X15. The main stage of a step whose resolution fails is not entered:
    [main] returns what the resolution returned.  When the resolution returns
    nil, the stage executor runs on the step it left. *)
Theorem main_stops_at_failed_resolution (sar : stepActionRemote.t) :
  let r := prepareActionExecutor sar in
  (outcome r ≠ returned None → main sar = r)
  ∧ (outcome r = returned None →
     let stage := runStepExecutor stepStageMain mainStep (final r) in
     main sar = {| final := final stage; trace := trace r ++ trace stage;
                   outcome := outcome stage |}).
Proof.
  intros r. subst r.
  unfold main, NewPipelineExecutor, NewPipelineExecutor_from, Then.
  destruct (outcome (prepareActionExecutor sar)) as [[e|]|]; by split.
Qed.

End resolution_more.

(** ** The stages and the accessors *)
Section stages_more.
Context `{Collaborators}.

(** X16. When reading a stage's condition panics.  The main condition is
    always there.  The post condition needs the action definition.  The pre
    condition needs the reference, and the action definition too unless the
    checkout shortcut applies: after the shortcut, which loads no definition,
    the pre condition is [false] but asking for the post condition panics. *)
Theorem getIfExpression_defined (sar : stepActionRemote.t) :
  getIfExpression sar stepStageMain = Some (model.If_Value (stepActionRemote.Step sar))
  ∧ (getIfExpression sar stepStagePost = None ↔ stepActionRemote.action sar = None)
  ∧ (getIfExpression sar stepStagePre = None ↔
     stepActionRemote.remoteAction sar = None
     ∨ ∃ ra, stepActionRemote.remoteAction sar = Some ra
             ∧ skipsCheckout sar ra = false
             ∧ stepActionRemote.action sar = None).
Proof.
  split; [done|]. split.
  - cbn [getIfExpression]. by destruct (stepActionRemote.action sar).
  - cbn [getIfExpression].
    destruct (stepActionRemote.remoteAction sar) as [ra|]; [|by split; [left|]].
    destruct (skipsCheckout sar ra) eqn:Hskip.
    + split; [done|]. intros [?|(ra' & [= <-] & ? & _)]; congruence.
    + destruct (stepActionRemote.action sar) as [a|].
      * split; [done|]. by intros [?|(ra' & _ & _ & ?)].
      * split; [|done]. intros _. right. by exists ra.
Qed.

(** X17. After a resolution that cloned, the github context of the step
    names what was cloned: its action ref is the ref given to the clone, and
    the clone URL ends in a slash and its action repository.  The repository
    and the token of the context are those of the run context. *)
Theorem github_context_names_the_clone
    (sar : stepActionRemote.t) (input : git.NewGitCloneExecutorInput) :
  EvGitClone input ∈ trace (prepareActionExecutor sar) →
  let sar' := final (prepareActionExecutor sar) in
  let ghc := getGithubContext sar' in
  model.ActionRef ghc = git.Ref input
  ∧ (∃ base, git.URL input = base +:+ "/" +:+ model.ActionRepository ghc)
  ∧ model.Repository ghc =
    model.Repository (rc_getGithubContext (stepActionRemote.RunContext sar))
  ∧ model.Token ghc =
    model.Token (rc_getGithubContext (stepActionRemote.RunContext sar)).
Proof.
  intros Hin.
  destruct (prepare_clone sar input Hin) as (ra0 & _ & _ & Hinput & Hrun).
  cbv zeta in *. set (ra := (replaceGhe _ ra0 _).1) in *.
  assert (∃ a, final (prepareActionExecutor sar) =
               stepActionRemote.set_action a
                 (stepActionRemote.set_remoteAction (Some ra)
                    (stepActionRemote.set_remoteAction
                       (newRemoteAction (Interpolate (stepActionRemote.RunContext sar)
                                           (model.Uses (stepActionRemote.Step sar))))
                       (stepActionRemote.set_Step
                          (model.set_Uses
                             (Interpolate (stepActionRemote.RunContext sar)
                                (model.Uses (stepActionRemote.Step sar)))
                             (stepActionRemote.Step sar)) sar)))) as [a ->].
  { rewrite Hrun. destruct (gitClone input) as [[]|]; cbn [final];
      first [by eexists | by exists (stepActionRemote.action sar)]. }
  unfold getGithubContext.
  cbn [stepActionRemote.remoteAction stepActionRemote.set_action
       stepActionRemote.set_remoteAction stepActionRemote.RunContext
       stepActionRemote.set_Step model.ActionRef model.ActionRepository
       model.Repository model.Token model.set_Action].
  rewrite Hinput. cbn [git.Ref git.URL]. split; [done|]. split; [|done].
  unfold remoteAction.CloneURL. by eexists.
Qed.

(** X18. An access to the composite context panics only on a step with
    neither a composite context nor a reference, and then changes nothing.
    Otherwise the context it returns is the one the step holds afterwards,
    the nested steps are set, and the access leaves the step model, the run
    context, the action, the environment and the reference as they were. *)
Theorem composite_access_frame (sar : stepActionRemote.t) :
  let access := getCompositeRunContext sar in
  let sar' := access.1.1 in
  (access.2 = None ↔
   stepActionRemote.compositeRunContext sar = None
   ∧ stepActionRemote.remoteAction sar = None)
  ∧ (access.2 = None → sar' = sar ∧ access.1.2 = [])
  ∧ (access.2 ≠ None →
     stepActionRemote.compositeRunContext sar' = access.2
     ∧ (stepActionRemote.compositeRunContext sar = None →
        is_Some (stepActionRemote.compositeSteps sar')))
  ∧ ((is_Some (stepActionRemote.compositeRunContext sar)
        ↔ is_Some (stepActionRemote.compositeSteps sar)) →
     (is_Some (stepActionRemote.compositeRunContext sar')
        ↔ is_Some (stepActionRemote.compositeSteps sar')))
  ∧ stepActionRemote.Step sar' = stepActionRemote.Step sar
  ∧ stepActionRemote.RunContext sar' = stepActionRemote.RunContext sar
  ∧ stepActionRemote.action sar' = stepActionRemote.action sar
  ∧ stepActionRemote.env sar' = stepActionRemote.env sar
  ∧ stepActionRemote.remoteAction sar' = stepActionRemote.remoteAction sar.
Proof.
  cbv zeta. unfold getCompositeRunContext.
  destruct (stepActionRemote.compositeRunContext sar) as [crc|] eqn:Hcrc.
  - cbn [fst snd stepActionRemote.set_composite stepActionRemote.compositeRunContext
         stepActionRemote.compositeSteps stepActionRemote.Step
         stepActionRemote.RunContext stepActionRemote.action stepActionRemote.env
         stepActionRemote.remoteAction].
    split; [by split; [|intros [? _]]|]. split; [done|]. split; [done|].
    split; [|done]. intros Hinv. split; [intros _|by eexists].
    apply Hinv. by eexists.
  - destruct (stepActionRemote.remoteAction sar) as [ra|] eqn:Hra.
    + cbn [fst snd stepActionRemote.set_composite stepActionRemote.compositeRunContext
           stepActionRemote.compositeSteps stepActionRemote.Step
           stepActionRemote.RunContext stepActionRemote.action stepActionRemote.env
           stepActionRemote.remoteAction].
      split; [by split; [|intros [_ ?]]|]. split; [done|].
      split; [intros _; split; [done|by eexists]|].
      split; [|done]. intros _. by split; eexists.
    + cbn [fst snd]. rewrite Hcrc, Hra.
      split; [done|]. split; [done|]. split; [done|]. by split.
Qed.

(** X19. The main stage function changes nothing in the step.  On a step
    without a reference it panics, with no effect.  Otherwise it does one
    thing: under the checkout shortcut it logs a line when the working
    directory is bound, and else copies the working directory, after
    interpolating the step's [path] input; without the shortcut it runs the
    action of the reference.  It never clones, reads an action definition or
    touches the composite context. *)
Theorem main_stage_effects (sar : stepActionRemote.t) :
  let r := mainStep sar in
  let bound := Config.BindWorkdir (RunContext.Config (stepActionRemote.RunContext sar)) in
  final r = sar
  ∧ (outcome r = panicked ↔ stepActionRemote.remoteAction sar = None)
  ∧ (stepActionRemote.remoteAction sar = None → trace r = [])
  ∧ (∀ ra, stepActionRemote.remoteAction sar = Some ra →
           ∃ before e,
             trace r = before ++ [e]
             ∧ match e with
               | EvDebugf _ =>
                   skipsCheckout sar ra = true ∧ bound = true ∧ before = []
               | EvCopyDir _ _ _ =>
                   skipsCheckout sar ra = true ∧ bound = false
                   ∧ before =
                     [EvInterpolate
                        (default "" (model.With (stepActionRemote.Step sar) !! "path"))]
               | EvRunAction _ ra' =>
                   skipsCheckout sar ra = false ∧ ra' = ra ∧ before = []
               | _ => False
               end).
Proof.
  cbv zeta. unfold mainStep.
  destruct (stepActionRemote.remoteAction sar) as [ra|].
  - destruct (skipsCheckout sar ra) eqn:Hskip;
      [destruct (Config.BindWorkdir _) eqn:Hbound|]; cbn [final outcome trace].
    all: split; [done|]; split; [done|]; split; [done|].
    all: intros ra' [= <-].
    + by eexists [], _.
    + by eexists [_], _.
    + by eexists [], _.
  - cbn [final outcome trace]. by repeat split.
Qed.

End stages_more.

Section guarded_stages.
Context `{Collaborators} `{StageCollaborators}.

(** X20. The pre and post stages are guarded.  The call of [pre] empties
    the step's environment and touches nothing else; its executor returns
    what the resolution returned when that is not nil, and the resolution's
    result alone when the resolved step fails [shouldRunPreStep] or
    [hasPreStep].  [post] never resolves: when either of its conditions
    fails it returns nil with no effect, and otherwise it is the stage
    executor. *)
Theorem pre_and_post_are_guarded (sar : stepActionRemote.t) :
  let r := prepareActionExecutor sar in
  (pre sar).1 = set_env ∅ sar
  ∧ (∀ key, getEnv (pre sar).1 !! key = None)
  ∧ (outcome r ≠ returned None → (pre sar).2 sar = r)
  ∧ (outcome r = returned None →
     shouldRunPreStep (final r) && hasPreStep (final r) = false →
     final ((pre sar).2 sar) = final r
     ∧ trace ((pre sar).2 sar) = trace r
     ∧ outcome ((pre sar).2 sar) = returned None)
  ∧ (shouldRunPostStep sar && hasPostStep sar = false →
     post sar = {| final := sar; trace := []; outcome := returned None |})
  ∧ (shouldRunPostStep sar && hasPostStep sar = true →
     post sar = runStepExecutor stepStagePost runPostStep sar).
Proof.
  cbv zeta. split; [done|]. split; [intros key; apply lookup_empty|].
  unfold pre, post, NewPipelineExecutor, NewPipelineExecutor_from, Then, If.
  cbn [fst snd].
  split; [|split; [|split]].
  - by destruct (outcome (prepareActionExecutor sar)) as [[e|]|].
  - intros -> Hcond. apply andb_false_iff in Hcond.
    destruct (shouldRunPreStep _); [|by rewrite app_nil_r].
    destruct Hcond as [?|Hhas]; [done|]. by rewrite Hhas, app_nil_r.
  - intros Hcond. apply andb_false_iff in Hcond.
    destruct (shouldRunPostStep sar); [|done].
    destruct Hcond as [?|Hhas]; [done|]. by rewrite Hhas.
  - intros [-> ->]%andb_true_iff. done.
Qed.

End guarded_stages.

(** ** Further worked examples *)
Section more_examples.

Lemma printed_reference_parses_witness :
  parseAction ("org" +:+ "/" +:+ "repo" +:+ "@" +:+ "v1") =
    Some {| remoteAction.URL := ""; remoteAction.Org := "org";
            remoteAction.Repo := "repo"; remoteAction.Path := "";
            remoteAction.Ref := "v1" |}
  ∧ parseAction ("org" +:+ "/" +:+ "repo" +:+ "/" +:+ "a/b" +:+ "@" +:+ "v1") =
    Some {| remoteAction.URL := ""; remoteAction.Org := "org";
            remoteAction.Repo := "repo"; remoteAction.Path := "a/b";
            remoteAction.Ref := "v1" |}.
Proof.
  apply (printed_reference_parses "org" "repo" "a/b" "v1");
    first [discriminate | reflexivity].
Defined.


Lemma clone_url_has_a_scheme_witness :
  strings.HasPrefix (remoteAction.CloneURL exampleReference "gitea.example.com")
                    "https://" = true
  ∨ strings.HasPrefix (remoteAction.CloneURL exampleReference "gitea.example.com")
                      "http://" = true.
Proof.
  apply (proj1 (clone_url_has_a_scheme "org/repo/sub@v1" exampleReference
                  "gitea.example.com" ltac:(vm_compute; reflexivity))).
Defined.

Lemma cache_names_collide_witness :
  "a/b-c@v1" ≠ "a-b/c@v1" ∧ safeFilename "a/b-c@v1" = safeFilename "a-b/c@v1".
Proof.
  apply (proj2 (cache_names_collide "a" "b" "c" "v1"
                  ltac:(discriminate) ltac:(discriminate) ltac:(discriminate)
                  ltac:(discriminate) eq_refl eq_refl eq_refl eq_refl)).
Defined.

Lemma clone_token_follows_prefix_witness :
  let C := exampleCollaborators giteaEnvironment false None in
  git.Token exampleClone =
  (if strings.HasPrefix (git.URL exampleClone) (@Getenv C "GITEA_INSTANCE_URL")
   then @Getenv C "GITEA_RUNNER_TOKEN" else "").
Proof.
  intros C.
  apply (proj1 (@clone_token_follows_prefix C (newStep "org/repo/sub@v1") exampleClone
                  ltac:(vm_compute; do 2 apply list_elem_of_further;
                        apply list_elem_of_here))).
Defined.

Lemma unparsable_uses_fails_early_witness :
  let C := exampleCollaborators giteaEnvironment false None in
  trace (@prepareActionExecutor C (newStep "org/repo")) = [EvInterpolate "org/repo"]
  ∧ stepActionRemote.remoteAction (final (@prepareActionExecutor C (newStep "org/repo")))
    = None.
Proof.
  intros C.
  destruct (@unparsable_uses_fails_early C (newStep "org/repo")
              (or_introl eq_refl) ltac:(vm_compute; reflexivity))
    as (_ & Htrace & Href & _).
  split; [exact Htrace|exact Href].
Defined.

Lemma resolution_never_panics_witness :
  let C := exampleCollaborators giteaEnvironment false None in
  outcome (@mainStep C (final (@prepareActionExecutor C (newStep "org/repo/sub@v1"))))
  ≠ panicked.
Proof.
  intros C.
  apply (proj2 (@resolution_never_panics C (newStep "org/repo/sub@v1"))).
  vm_compute. reflexivity.
Defined.

Lemma resolution_reads_what_it_cloned_witness :
  let C := exampleCollaborators giteaEnvironment false None in
  let r := @prepareActionExecutor C (newStep "org/repo/sub@v1") in
  let quiet (e : event) : Prop :=
    match e with
    | EvInterpolate _ | EvDebugf _ | EvInfof _ _ => True
    | _ => False
    end in
  (∃ before after ra,
     trace r = before ++ EvGitClone exampleClone :: after
     ∧ Forall quiet before
     ∧ stepActionRemote.remoteAction (final r) = Some ra
     ∧ git.Ref exampleClone = remoteAction.Ref ra
     ∧ (after = []
        ∨ ∃ log,
            after = log ++ [EvReadAction (git.Dir exampleClone) (remoteAction.Path ra)]
            ∧ Forall quiet log))
  ∧ Forall quiet (trace (@prepareActionExecutor C (newStep "org/repo"))).
Proof.
  intros C r quiet. split.
  - apply (proj1 (@resolution_reads_what_it_cloned C (newStep "org/repo/sub@v1"))
             exampleClone).
    vm_compute. do 2 apply list_elem_of_further. apply list_elem_of_here.
  - apply (proj2 (@resolution_reads_what_it_cloned C (newStep "org/repo"))).
    intros input Hin.
    change (EvGitClone input ∈ [EvInterpolate "org/repo"]) in Hin.
    apply list_elem_of_singleton in Hin. discriminate Hin.
Defined.

Lemma resolved_once_stays_resolved_witness :
  let C := exampleCollaborators giteaEnvironment false None in
  let sar' := final (@prepareActionExecutor C (newStep "org/repo/sub@v1")) in
  @prepareActionExecutor C sar' =
  {| final := sar'; trace := []; outcome := returned None |}.
Proof.
  intros C sar'.
  apply (@resolved_once_stays_resolved C (newStep "org/repo/sub@v1") exampleAction);
    vm_compute; reflexivity.
Defined.

Lemma checkout_shortcut_resolves_again_witness :
  let C := exampleCollaborators giteaEnvironment true None in
  let sar1 := final (@prepareActionExecutor C (newStep "actions/checkout@v4")) in
  stepActionRemote.action sar1 = None
  ∧ ∃ events,
      trace (@prepareActionExecutor C sar1) = EvInterpolate "actions/checkout@v4" :: events.
Proof.
  intros C sar1.
  destruct (@checkout_shortcut_resolves_again C (newStep "actions/checkout@v4")
              checkoutReference eq_refl ltac:(vm_compute; reflexivity)
              ltac:(vm_compute; reflexivity))
    as (Haction & Hevents & _).
  split; [exact Haction|exact Hevents].
Defined.

Lemma main_stops_at_failed_resolution_witness :
  let C := exampleCollaborators giteaEnvironment false
             (Some (git.ErrShortRef "0123456789abcdef0123456789abcdef01234567")) in
  @main C (newStep "org/repo/sub@0123456")
  = @prepareActionExecutor C (newStep "org/repo/sub@0123456").
Proof.
  intros C.
  apply (proj1 (@main_stops_at_failed_resolution C (newStep "org/repo/sub@0123456"))).
  vm_compute. discriminate.
Defined.

Lemma getIfExpression_defined_witness :
  let C := exampleCollaborators giteaEnvironment true None in
  let sar := resolvedStep "actions/checkout@v4" checkoutReference None in
  @getIfExpression C sar stepStagePost = None.
Proof.
  intros C sar.
  apply (proj2 (proj1 (proj2 (@getIfExpression_defined C sar)))). reflexivity.
Defined.

Lemma github_context_names_the_clone_witness :
  let C := exampleCollaborators giteaEnvironment false None in
  let sar' := final (@prepareActionExecutor C (newStep "org/repo/sub@v1")) in
  model.ActionRef (@getGithubContext C sar') = git.Ref exampleClone
  ∧ ∃ base, git.URL exampleClone
            = base +:+ "/" +:+ model.ActionRepository (@getGithubContext C sar').
Proof.
  intros C sar'.
  destruct (@github_context_names_the_clone C (newStep "org/repo/sub@v1") exampleClone
              ltac:(vm_compute; do 2 apply list_elem_of_further;
                    apply list_elem_of_here))
    as (Href & Hurl & _).
  split; [exact Href|exact Hurl].
Defined.

Lemma composite_access_frame_witness :
  let C := exampleCollaborators giteaEnvironment false None in
  let access := @getCompositeRunContext C (newStep "org/repo/sub@v1") in
  access.1.1 = newStep "org/repo/sub@v1" ∧ access.1.2 = [].
Proof.
  intros C access.
  apply (proj1 (proj2 (@composite_access_frame C (newStep "org/repo/sub@v1")))).
  reflexivity.
Defined.

Lemma main_stage_effects_witness :
  let C := exampleCollaborators giteaEnvironment true None in
  let sar := resolvedStep "org/repo/sub@v1" exampleReference (Some exampleAction) in
  let checkout := resolvedStep "actions/checkout@v4" checkoutReference None in
  (∃ before e,
     trace (@mainStep C sar) = before ++ [e]
     ∧ match e with
       | EvDebugf _ =>
           @skipsCheckout C sar exampleReference = true ∧ false = true ∧ before = []
       | EvCopyDir _ _ _ =>
           @skipsCheckout C sar exampleReference = true ∧ false = false
           ∧ before = [EvInterpolate ""]
       | EvRunAction _ ra' =>
           @skipsCheckout C sar exampleReference = false ∧ ra' = exampleReference
           ∧ before = []
       | _ => False
       end)
  ∧ (∃ before e,
       trace (@mainStep C checkout) = before ++ [e]
       ∧ match e with
         | EvDebugf _ =>
             @skipsCheckout C checkout checkoutReference = true ∧ false = true
             ∧ before = []
         | EvCopyDir _ _ _ =>
             @skipsCheckout C checkout checkoutReference = true ∧ false = false
             ∧ before = [EvInterpolate ""]
         | EvRunAction _ ra' =>
             @skipsCheckout C checkout checkoutReference = false
             ∧ ra' = checkoutReference ∧ before = []
         | _ => False
         end).
Proof.
  intros C sar checkout. split.
  - apply (proj2 (proj2 (proj2 (@main_stage_effects C sar))) exampleReference).
    reflexivity.
  - apply (proj2 (proj2 (proj2 (@main_stage_effects C checkout))) checkoutReference).
    reflexivity.
Defined.

Lemma pre_and_post_are_guarded_witness :
  let C := exampleCollaborators giteaEnvironment false None in
  let sar := newStep "org/repo" in
  (@pre C exampleStages sar).2 sar = @prepareActionExecutor C sar
  ∧ @post C exampleStages sar = {| final := sar; trace := []; outcome := returned None |}.
Proof.
  intros C sar.
  destruct (@pre_and_post_are_guarded C exampleStages sar)
    as (_ & _ & Hpre & _ & Hpost & _).
  split.
  - apply Hpre. vm_compute. discriminate.
  - apply Hpost. reflexivity.
Defined.

End more_examples.
